(** * dataCompress: the byte-to-text pipeline of [src/App.jsx]

    A shallow embedding of the logic of the [FileCompressor] component:
    the Base64 helpers [uint8ToBase64] / [base64ToUint8], the gzip adapters
    [compress] / [decompress], the two upload handlers and the two download
    actions, followed by the properties the specification states about them.

    JavaScript values are modelled as follows.
    - A [Uint8Array] is a [list byte].
    - A JavaScript string is the list of its UTF-16 code units ([list N],
      every unit below 65536).
    - A thrown value is an [Error] object with a [name] and a [message].
    - The component's six [useState] cells form the record [State]; the
      handlers are programs of a small state-and-exception monad.
    - The browser primitives the component calls ([btoa], [atob],
      [String.fromCharCode], [TypedArray.prototype.subarray],
      [String.prototype.replace], [Error.prototype.toString]) are written out
      from their standards; the gzip streams are an interface. *)

From Stdlib Require Import Ascii String.
From Stdlib Require Import List NArith PArith ZArith Lia Bool.
From Stdlib.Strings Require Import Byte.
From Equations Require Import Equations.
Import ListNotations.

Local Open Scope N_scope.

(** ** JavaScript strings, bytes and thrown values *)

Abbreviation code_unit := N (only parsing).
Definition jsstring := list code_unit.
Definition Uint8Array := list byte.

(** A string literal of the source, as code units. *)
Definition lit (s : string) : jsstring :=
  map (fun a => N_of_ascii a) (list_ascii_of_string s).

Record Error := mkError { err_name : jsstring; err_message : jsstring }.

Inductive result (A : Type) : Type :=
| Ok (a : A)
| Throw (e : Error).
Arguments Ok {A} a.
Arguments Throw {A} e.

Definition result_bind {A B} (r : result A) (k : A -> result B) : result B :=
  match r with
  | Ok a => k a
  | Throw e => Throw e
  end.

(** [Error.prototype.toString]: the name, the message, or both joined by a
    colon and a space. *)
Definition Error_toString (e : Error) : jsstring :=
  match err_name e, err_message e with
  | [], msg => msg
  | nm, [] => nm
  | nm, msg => nm ++ lit ": " ++ msg
  end.

(** The [DOMException] that [btoa] and [atob] throw. Its name is fixed by
    the standard; the message differs between browsers, and nothing below
    depends on its text. *)
Definition InvalidCharacterError : Error :=
  mkError (lit "InvalidCharacterError") (lit "The string contains invalid characters.").

(** ** The Base64 primitives of the platform

    [btoa] and [atob] follow the HTML standard: [btoa] throws on a code unit
    above U+00FF and otherwise applies forgiving-base64 encode; [atob] is
    forgiving-base64 decode. *)

Definition base64_alphabet : jsstring :=
  lit "ABCDEFGHIJKLMNOPQRSTUVWXYZabcdefghijklmnopqrstuvwxyz0123456789+/".

Definition pad_char : code_unit := 61.

(** The alphabet symbol of a sextet. *)
Definition sextet_char (i : N) : code_unit := nth (N.to_nat i) base64_alphabet 0.

Fixpoint index_of (c : code_unit) (l : jsstring) (i : N) : option N :=
  match l with
  | [] => None
  | x :: l' => if N.eqb c x then Some i else index_of c l' (N.succ i)
  end.

(** The sextet of an alphabet symbol; [None] outside the alphabet. *)
Definition char_sextet (c : code_unit) : option N := index_of c base64_alphabet 0.

Definition in_alphabet (c : code_unit) : bool :=
  match char_sextet c with Some _ => true | None => false end.

Fixpoint base64_encode (data : list N) : jsstring :=
  match data with
  | [] => []
  | [a] =>
      [sextet_char (N.shiftr a 2);
       sextet_char (N.shiftl (N.land a 3) 4);
       pad_char; pad_char]
  | [a; b] =>
      [sextet_char (N.shiftr a 2);
       sextet_char (N.lor (N.shiftl (N.land a 3) 4) (N.shiftr b 4));
       sextet_char (N.shiftl (N.land b 15) 2);
       pad_char]
  | a :: b :: c :: rest =>
      sextet_char (N.shiftr a 2)
      :: sextet_char (N.lor (N.shiftl (N.land a 3) 4) (N.shiftr b 4))
      :: sextet_char (N.lor (N.shiftl (N.land b 15) 2) (N.shiftr c 6))
      :: sextet_char (N.land c 63)
      :: base64_encode rest
  end.

Definition btoa (data : jsstring) : result jsstring :=
  if forallb (fun c => c <=? 255) data
  then Ok (base64_encode data)
  else Throw InvalidCharacterError.

(** The encoder's output read in two parts: the sextets it emits, and the
    padding it appends. *)
Fixpoint encode_sextets (data : list N) : list N :=
  match data with
  | [] => []
  | [a] => [N.shiftr a 2; N.shiftl (N.land a 3) 4]
  | [a; b] =>
      [N.shiftr a 2;
       N.lor (N.shiftl (N.land a 3) 4) (N.shiftr b 4);
       N.shiftl (N.land b 15) 2]
  | a :: b :: c :: rest =>
      N.shiftr a 2
      :: N.lor (N.shiftl (N.land a 3) 4) (N.shiftr b 4)
      :: N.lor (N.shiftl (N.land b 15) 2) (N.shiftr c 6)
      :: N.land c 63
      :: encode_sextets rest
  end.

Fixpoint encode_padding (data : list N) : jsstring :=
  match data with
  | [] => []
  | [_] => [pad_char; pad_char]
  | [_; _] => [pad_char]
  | _ :: _ :: _ :: rest => encode_padding rest
  end.

(** The strings [btoa] accepts: every code unit is at most U+00FF. *)
Definition octets (data : list N) : Prop := Forall (fun c => c < 256) data.

(** ASCII whitespace: TAB, LF, FF, CR and SPACE. *)
Definition is_ascii_whitespace (c : code_unit) : bool :=
  (c =? 9) || (c =? 10) || (c =? 12) || (c =? 13) || (c =? 32).

Definition strip_whitespace (data : jsstring) : jsstring :=
  filter (fun c => negb (is_ascii_whitespace c)) data.

(** Remove one or two trailing padding characters. *)
Definition strip_padding (data : jsstring) : jsstring :=
  match rev data with
  | p :: q :: r =>
      if p =? pad_char
      then if q =? pad_char then rev r else rev (q :: r)
      else data
  | [p] => if p =? pad_char then [] else data
  | [] => data
  end.

Fixpoint sextets_of (data : jsstring) : option (list N) :=
  match data with
  | [] => Some []
  | c :: data' =>
      match char_sextet c, sextets_of data' with
      | Some i, Some l => Some (i :: l)
      | _, _ => None
      end
  end.

(** The bit buffer of the decoder: every four sextets give three bytes; a
    remainder of twelve bits gives one byte (the last four bits dropped), a
    remainder of eighteen bits gives two (the last two bits dropped). *)
Fixpoint decode_sextets (s : list N) : list N :=
  match s with
  | a :: b :: c :: d :: rest =>
      let n := N.lor (N.lor (N.lor (N.shiftl a 18) (N.shiftl b 12)) (N.shiftl c 6)) d in
      N.land (N.shiftr n 16) 255 :: N.land (N.shiftr n 8) 255 :: N.land n 255
      :: decode_sextets rest
  | [a; b; c] =>
      let n := N.shiftr (N.lor (N.lor (N.shiftl a 12) (N.shiftl b 6)) c) 2 in
      [N.land (N.shiftr n 8) 255; N.land n 255]
  | [a; b] =>
      let n := N.shiftr (N.lor (N.shiftl a 6) b) 4 in
      [N.land n 255]
  | _ => []
  end.

Definition atob (data : jsstring) : result jsstring :=
  let data := strip_whitespace data in
  let data :=
    if N.of_nat (length data) mod 4 =? 0 then strip_padding data else data in
  if N.of_nat (length data) mod 4 =? 1 then Throw InvalidCharacterError
  else
    match sextets_of data with
    | None => Throw InvalidCharacterError
    | Some s => Ok (decode_sextets s)
    end.

(** ** Typed arrays and [String.fromCharCode] *)

(** [u8.subarray(b, e)] with non-negative bounds: both are clamped to the
    length, and an end before the begin gives the empty view. *)
Definition subarray (u8 : Uint8Array) (b e : N) : Uint8Array :=
  let len := N.of_nat (length u8) in
  let b' := N.min b len in
  let e' := N.min e len in
  firstn (N.to_nat (e' - b')) (skipn (N.to_nat b') u8).

(** [String.fromCharCode.apply(null, chunk)]: one code unit per element. *)
Definition fromCharCode_apply (chunk : Uint8Array) : jsstring :=
  map Byte.to_N chunk.

(** Storing a number into a [Uint8Array] keeps its low eight bits. *)
Definition ToUint8 (n : N) : byte :=
  match Byte.of_N (n mod 256) with
  | Some b => b
  | None => x00
  end.

(** The bytes of an ASCII literal. *)
Definition bytes_of (s : string) : Uint8Array := map ToUint8 (lit s).

(** [binary.charCodeAt(i)] inside the bounds of [binary]. *)
Definition charCodeAt (s : jsstring) (i : nat) : N := nth i s 0.

(** [u8[i] = v]: a store outside the array is ignored. *)
Fixpoint store (u8 : Uint8Array) (i : nat) (v : byte) : Uint8Array :=
  match u8, i with
  | [], _ => []
  | _ :: t, O => v :: t
  | h :: t, S i' => h :: store t i' v
  end.

(** ** The Base64 helpers of the component (App.jsx, lines 12-30) *)

Definition chunkSize : positive := 0x8000.

(** The loop test, kept together with its outcome. *)
Definition inspect {A} (a : A) : {b : A | a = b} := exist _ a eq_refl.

(** The [for] loop of [uint8ToBase64], for a chunk size [cs] (positive, as
    the source's constant is): [i] is the loop counter and [binary] the
    accumulated string. *)
Equations? chunk_loop (cs : positive) (u8 : Uint8Array) (i : N) (binary : jsstring)
  : jsstring by wf (N.to_nat (N.of_nat (length u8) - i)) lt :=
  chunk_loop cs u8 i binary with inspect (i <? N.of_nat (length u8)) => {
    | exist _ true Hlt =>
        chunk_loop cs u8 (i + Npos cs)
          (binary ++ fromCharCode_apply (subarray u8 i (i + Npos cs)));
    | exist _ false _ => binary }.
Proof.
  apply N.ltb_lt in Hlt. lia.
Qed.

Definition uint8ToBase64_chunked (cs : positive) (u8 : Uint8Array) : result jsstring :=
  btoa (chunk_loop cs u8 0 []).

Definition uint8ToBase64 (u8 : Uint8Array) : result jsstring :=
  uint8ToBase64_chunked chunkSize u8.

(** The [for] loop of [base64ToUint8]: [u8] starts as [len] zero bytes. *)
Definition fill_loop (binary : jsstring) (len : nat) : Uint8Array :=
  fold_left (fun u8 i => store u8 i (ToUint8 (charCodeAt binary i)))
    (seq 0 len) (repeat x00 len).

Definition base64ToUint8 (b64 : jsstring) : result Uint8Array :=
  result_bind (atob b64) (fun binary => Ok (fill_loop binary (length binary))).

(** ** Strings of the download actions *)

Fixpoint starts_with (s pat : jsstring) {struct pat} : bool :=
  match pat, s with
  | [], _ => true
  | p :: pat', c :: s' => (c =? p) && starts_with s' pat'
  | _ :: _, [] => false
  end.

(** [s.replace(pat, rep)] for a string pattern and a replacement without
    dollar patterns: the first occurrence of [pat] is replaced, and a string
    without an occurrence is returned as it is. *)
Fixpoint String_replace (s pat rep : jsstring) : jsstring :=
  if starts_with s pat then rep ++ skipn (length pat) s
  else
    match s with
    | [] => []
    | c :: s' => c :: String_replace s' pat rep
    end.

(** [a || b] on strings: the empty string is the only falsy one. *)
Definition or_else (a b : jsstring) : jsstring :=
  match a with
  | [] => b
  | _ => a
  end.

(** ** Files and the gzip streams of the platform *)

(** A [File] as the component sees it: its [name], the bytes its [stream()]
    delivers (or the error it fails with), and the string
    [FileReader.readAsText] hands to [onload] ([None] when the reader fires
    an error event instead of a load event). *)
Record File := mkFile {
  name : jsstring;
  stream : result Uint8Array;
  text : option jsstring
}.

(** [CompressionStream("gzip")] and [DecompressionStream("gzip")], as
    functions of the whole byte stream piped through them: the compressor
    is total, the decompressor errors on a stream it rejects. *)
Class CompressionStreams := {
  gzip : Uint8Array -> Uint8Array;
  gunzip : Uint8Array -> result Uint8Array
}.

(** ** The component state (App.jsx, lines 4-9) *)

Record State := mkState {
  compressedText : jsstring;
  fileName : jsstring;
  restoredBlob : option Uint8Array;
  error : option jsstring;
  isCompressing : bool;
  isDecompressing : bool
}.

(** The state of a freshly mounted component. *)
Definition initial : State := mkState [] [] None None false false.

(** Programs over the state that may throw. *)
Definition M (A : Type) : Type := State -> result A * State.

Definition ret {A} (a : A) : M A := fun s => (Ok a, s).

Definition bind {A B} (m : M A) (k : A -> M B) : M B :=
  fun s =>
    match m s with
    | (Ok a, s') => k a s'
    | (Throw e, s') => (Throw e, s')
    end.

(** The outcome of a call (or of an awaited promise) inside a program. *)
Definition await {A} (r : result A) : M A := fun s => (r, s).

(** [try { body } catch (err) { handler } finally { fin }]. *)
Definition try_catch_finally (body : M unit) (handler : Error -> M unit)
  (fin : M unit) : M unit :=
  fun s =>
    let (r, s1) :=
      match body s with
      | (Ok _, s') => (Ok tt, s')
      | (Throw e, s') => handler e s'
      end in
    match fin s1 with
    | (Ok _, s2) => (r, s2)
    | (Throw e, s2) => (Throw e, s2)
    end.

(** The state a program leaves behind. *)
Definition exec {A} (m : M A) (s : State) : State := snd (m s).

Declare Scope js_scope.
Delimit Scope js_scope with js.
Notation "x <- m ;; k" := (bind m (fun x => k))
  (at level 61, m at next level, right associativity) : js_scope.
Notation "m ;; k" := (bind m (fun _ => k))
  (at level 61, right associativity) : js_scope.
Local Open Scope js_scope.

Definition setCompressedText (v : jsstring) : M unit :=
  fun s => (Ok tt, mkState v (fileName s) (restoredBlob s) (error s)
                     (isCompressing s) (isDecompressing s)).
Definition setFileName (v : jsstring) : M unit :=
  fun s => (Ok tt, mkState (compressedText s) v (restoredBlob s) (error s)
                     (isCompressing s) (isDecompressing s)).
Definition setRestoredBlob (v : option Uint8Array) : M unit :=
  fun s => (Ok tt, mkState (compressedText s) (fileName s) v (error s)
                     (isCompressing s) (isDecompressing s)).
Definition setError (v : option jsstring) : M unit :=
  fun s => (Ok tt, mkState (compressedText s) (fileName s) (restoredBlob s) v
                     (isCompressing s) (isDecompressing s)).
Definition setIsCompressing (v : bool) : M unit :=
  fun s => (Ok tt, mkState (compressedText s) (fileName s) (restoredBlob s)
                     (error s) v (isDecompressing s)).
Definition setIsDecompressing (v : bool) : M unit :=
  fun s => (Ok tt, mkState (compressedText s) (fileName s) (restoredBlob s)
                     (error s) (isCompressing s) v).

(** What a download action puts on the anchor it clicks. *)
Inductive Body :=
| TextBody (t : jsstring)
| BlobBody (b : Uint8Array).

Record Anchor := mkAnchor { href : Body; download : jsstring }.

Section Component.
Context {CS : CompressionStreams}.

(** ** The gzip adapters (App.jsx, lines 33-43) *)

Definition compress (blob : File) : result Uint8Array :=
  result_bind (stream blob) (fun bytes => Ok (gzip bytes)).

Definition decompress (u8 : Uint8Array) : result Uint8Array := gunzip u8.

(** ** Compress direction (App.jsx, lines 46-73) *)

(** The statements of [handleFileUpload] before its [try]. *)
Definition handleFileUpload_begin (file : File) : M unit :=
  setError None ;;
  setIsCompressing true ;;
  setFileName (name file).

(** The [try] / [catch] / [finally] of [handleFileUpload]. *)
Definition handleFileUpload_run (file : File) : M unit :=
  try_catch_finally
    (compressedBytes <- await (compress file) ;;
     base64 <- await (uint8ToBase64 compressedBytes) ;;
     setCompressedText base64)
    (fun err => setError (Some (lit "Failed to compress file: " ++ err_message err)))
    (setIsCompressing false).

(** [files0] is [e.target.files?.[0]]. *)
Definition handleFileUpload (files0 : option File) : M unit :=
  match files0 with
  | None => ret tt
  | Some file => handleFileUpload_begin file ;; handleFileUpload_run file
  end.

Definition downloadTxt (s : State) : Anchor :=
  mkAnchor (TextBody (compressedText s)) (fileName s ++ lit ".compressed.txt").

(** ** Restore direction (App.jsx, lines 76-108) *)

(** The statements of [handleTxtUpload] before the reader is started. *)
Definition handleTxtUpload_begin : M unit :=
  setError None ;;
  setIsDecompressing true.

(** The [reader.onload] callback; [reader_result] is [reader.result]. *)
Definition onload (reader_result : jsstring) : M unit :=
  try_catch_finally
    (compressedBytes <- await (base64ToUint8 reader_result) ;;
     decompressedBytes <- await (decompress compressedBytes) ;;
     setRestoredBlob (Some decompressedBytes))
    (fun err =>
       setError (Some (Error_toString err
                       ++ lit "Error decompressing file. Maybe wrong TXT format?")))
    (setIsDecompressing false).

(** [reader.readAsText(file)] with only [onload] installed: a failed read
    calls nothing. *)
Definition readAsText (file : File) (on_load : jsstring -> M unit) : M unit :=
  match text file with
  | Some t => on_load t
  | None => ret tt
  end.

Definition handleTxtUpload (files0 : option File) : M unit :=
  match files0 with
  | None => ret tt
  | Some file => handleTxtUpload_begin ;; readAsText file onload
  end.

Definition downloadRestored (s : State) : option Anchor :=
  match restoredBlob s with
  | None => None
  | Some blob =>
      Some (mkAnchor (BlobBody blob)
              (or_else (String_replace (fileName s) (lit ".compressed.txt") [])
                       (lit "restored_file")))
  end.

End Component.

(** A small codec in place of the platform's, for running the component on
    concrete files: it frames the bytes with the two identification bytes
    of a gzip member and rejects a stream that does not start with them. *)
Definition framing_codec : CompressionStreams := {|
  gzip := fun bytes => x1f :: x8b :: bytes;
  gunzip := fun s =>
    match s with
    | x1f :: x8b :: bytes => Ok bytes
    | _ => Throw (mkError (lit "TypeError") (lit "The compressed data was not valid."))
    end
|}.

(** The thirteen bytes of the end-to-end scenario. *)
Definition hello_world : Uint8Array := bytes_of "Hello, World!".

(** The error of a file that cannot be read. *)
Definition NotReadableError : Error :=
  mkError (lit "NotReadableError") (lit "The file could not be read.").

(** ** Reference points of the specification *)

(** Encoding the whole input in a single unchunked call: one
    [String.fromCharCode.apply] over all of [u8], then [btoa]. *)
Definition uint8ToBase64_unchunked (u8 : Uint8Array) : result jsstring :=
  btoa (fromCharCode_apply u8).

(** The restore name as the specification words it: the uploaded name
    without the suffix, and the default name when the suffix is absent. *)
Definition ends_with (s suffix : jsstring) : bool :=
  starts_with (rev s) (rev suffix).

Definition spec_restore_name (uploaded : jsstring) : jsstring :=
  if ends_with uploaded (lit ".compressed.txt")
  then firstn (length uploaded - length (lit ".compressed.txt")) uploaded
  else lit "restored_file".

(** [s.includes(pat)]: whether [pat] occurs in [s]. *)
Fixpoint includes (s pat : jsstring) : bool :=
  if starts_with s pat then true
  else
    match s with
    | [] => false
    | _ :: s' => includes s' pat
    end.

(** A padding character where the decoder does not remove it: in a string
    whose length is not a multiple of four, more than two places before the
    end, or before a character that is not padding. *)
Definition misplaced_padding (d : jsstring) : Prop :=
  exists pre post,
    d = pre ++ pad_char :: post
    /\ (N.of_nat (length d) mod 4 <> 0
        \/ (2 <= length post)%nat
        \/ exists c, In c post /\ c <> pad_char).

(** The payloads the decoder rejects by their shape: a character that is
    neither an alphabet symbol, nor the padding character, nor ASCII
    whitespace; a length (whitespace aside) of one more than a multiple of
    four; or misplaced padding. *)
Definition rejected_payload (b64 : jsstring) : Prop :=
  (exists c, In c b64 /\ in_alphabet c = false /\ c <> pad_char
             /\ is_ascii_whitespace c = false)
  \/ N.of_nat (length (strip_whitespace b64)) mod 4 = 1
  \/ misplaced_padding (strip_whitespace b64).

Section Stages.
Context {CS : CompressionStreams}.

(** The stages of a compress run, [compress] then [uint8ToBase64]. *)
Definition compress_stages (file : File) : result jsstring :=
  result_bind (compress file) uint8ToBase64.

(** The stages of a restore run once the reader has loaded [t],
    [base64ToUint8] then [decompress]. *)
Definition restore_stages (t : jsstring) : result Uint8Array :=
  result_bind (base64ToUint8 t) decompress.

(** A restore run fails when the reader does not load the file or a stage
    after it throws. *)
Definition restore_fails (file : File) : Prop :=
  match text file with
  | None => True
  | Some t => exists e, restore_stages t = Throw e
  end.

End Stages.

(** ** What the component renders and reacts to (App.jsx, lines 110-194) *)

(** A string in a condition: only the empty string is falsy. *)
Definition truthy (s : jsstring) : bool :=
  match s with
  | [] => false
  | _ :: _ => true
  end.

(** The parts of the rendered tree that depend on the state: the error
    banner, the [disabled] attributes of the two file inputs and the two
    download buttons, the two loading indicators and the footer. *)
Record View := mkView {
  error_message : option jsstring;
  originalFile_disabled : bool;
  downloadTxt_disabled : bool;
  compressing_indicator : bool;
  txtFile_disabled : bool;
  downloadRestored_disabled : bool;
  decompressing_indicator : bool;
  current_file : option jsstring;
  compressed_note : bool;
  restored_note : bool
}.

Definition render (s : State) : View :=
  mkView
    (match error s with
     | Some msg => if truthy msg then Some msg else None
     | None => None
     end)
    (isCompressing s)
    (negb (truthy (compressedText s)) || isCompressing s)
    (isCompressing s)
    (isDecompressing s)
    (match restoredBlob s with None => true | Some _ => false end
     || isDecompressing s)
    (isDecompressing s)
    (if truthy (fileName s) then Some (fileName s) else None)
    (truthy (compressedText s))
    (match restoredBlob s with None => false | Some _ => true end).

(** The events the rendered controls can fire. *)
Inductive Event :=
| Dismiss
| SelectOriginal (files0 : option File)
| ClickDownloadTxt
| SelectTxt (files0 : option File)
| ClickDownloadRestored.

Section Events.
Context {CS : CompressionStreams}.

(** One event on the rendered component: a control that is disabled, or a
    dismiss button that is not rendered, fires nothing; otherwise the
    handler wired to the control runs to its end. The result is the next
    state and the download the event started, if any. *)
Definition dispatch (ev : Event) (s : State) : State * option Anchor :=
  match ev with
  | Dismiss =>
      match error_message (render s) with
      | Some _ => (exec (setError None) s, None)
      | None => (s, None)
      end
  | SelectOriginal files0 =>
      if originalFile_disabled (render s) then (s, None)
      else (exec (handleFileUpload files0) s, None)
  | ClickDownloadTxt =>
      if downloadTxt_disabled (render s) then (s, None)
      else (s, Some (downloadTxt s))
  | SelectTxt files0 =>
      if txtFile_disabled (render s) then (s, None)
      else (exec (handleTxtUpload files0) s, None)
  | ClickDownloadRestored =>
      if downloadRestored_disabled (render s) then (s, None)
      else (s, downloadRestored s)
  end.

(** A sequence of events: the final state and the downloads started, in
    order. *)
Fixpoint session (events : list Event) (s : State) : State * list Anchor :=
  match events with
  | [] => (s, [])
  | ev :: rest =>
      let (s1, d) := dispatch ev s in
      let (s2, ds) := session rest s1 in
      (s2, match d with
           | Some a => a :: ds
           | None => ds
           end)
  end.

End Events.

(** ** Strings of bounded length

    An engine holds strings up to a maximal length and throws a
    [RangeError] when a longer one would be created. The definitions above
    follow the standards, which set no such bound; the ones below are the
    same code on an engine that has one. *)

Class Engine := { max_string_length : N }.

(** The maximal string length of V8 on 64-bit builds, 2^29 - 24. *)
Definition v8 : Engine := {| max_string_length := 536870888 |}.

Definition RangeError : Error :=
  mkError (lit "RangeError") (lit "Invalid string length").

(** The length of the text that encodes [n] bytes. *)
Definition encoded_length (n : nat) : nat := 4 * ((n + 2) / 3).

Section Bounded.
Context {E : Engine}.

(** Creating the string [s]. *)
Definition allocate (s : jsstring) : result jsstring :=
  if N.of_nat (length s) <=? max_string_length then Ok s
  else Throw RangeError.

(** The loop of [uint8ToBase64]: [binary += ...] creates a string. *)
Equations? chunk_loop_within (cs : positive) (u8 : Uint8Array) (i : N)
  (binary : jsstring) : result jsstring
  by wf (N.to_nat (N.of_nat (length u8) - i)) lt :=
  chunk_loop_within cs u8 i binary with inspect (i <? N.of_nat (length u8)) => {
    | exist _ true Hlt
        with allocate (binary ++ fromCharCode_apply (subarray u8 i (i + Npos cs))) => {
        | Ok binary' => chunk_loop_within cs u8 (i + Npos cs) binary';
        | Throw e => Throw e };
    | exist _ false _ => Ok binary }.
Proof.
  apply N.ltb_lt in Hlt. lia.
Qed.

(** [uint8ToBase64]: the loop, then [btoa], whose result is a string too.
    Which error [btoa] fails with when its result is too long differs
    between engines; nothing below depends on it. *)
Definition uint8ToBase64_within (u8 : Uint8Array) : result jsstring :=
  result_bind (chunk_loop_within chunkSize u8 0 [])
    (fun binary => result_bind (btoa binary) allocate).

Context {CS : CompressionStreams}.

(** The [try] / [catch] / [finally] of [handleFileUpload]. *)
Definition handleFileUpload_run_within (file : File) : M unit :=
  try_catch_finally
    (compressedBytes <- await (compress file) ;;
     base64 <- await (uint8ToBase64_within compressedBytes) ;;
     setCompressedText base64)
    (fun err => setError (Some (lit "Failed to compress file: " ++ err_message err)))
    (setIsCompressing false).

Definition handleFileUpload_within (files0 : option File) : M unit :=
  match files0 with
  | None => ret tt
  | Some file => handleFileUpload_begin file ;; handleFileUpload_run_within file
  end.

(** The round trip as the specification words it, for the bytes [b] of a
    file: [decompress (compress b) = b], and
    [decompress (decode (encode (compress b))) = b]. *)
Definition round_trips (b : Uint8Array) : Prop :=
  let blob := mkFile [] (Ok b) None in
  result_bind (compress blob) decompress = Ok b
  /\ result_bind
       (result_bind (result_bind (compress blob) uint8ToBase64_within)
          base64ToUint8)
       decompress = Ok b.

End Bounded.

(** ** Counting byte sequences *)

(** The 256 bytes. *)
Definition all_bytes : list byte := map ToUint8 (map N.of_nat (seq 0 256)).

(** The byte sequences of length [n]. *)
Fixpoint words (n : nat) : list Uint8Array :=
  match n with
  | O => [[]]
  | S n' => flat_map (fun b => map (cons b) (words n')) all_bytes
  end.

(** The byte sequences of length at most [n]. *)
Fixpoint words_upto (n : nat) : list Uint8Array :=
  match n with
  | O => words 0
  | S n' => words (S n') ++ words_upto n'
  end.

(** ** Test vectors *)

Example encode_f : uint8ToBase64 (bytes_of "f") = Ok (lit "Zg==").
Proof. reflexivity. Qed.

Example encode_fo : uint8ToBase64 (bytes_of "fo") = Ok (lit "Zm8=").
Proof. reflexivity. Qed.

Example encode_foo : uint8ToBase64 (bytes_of "foo") = Ok (lit "Zm9v").
Proof. reflexivity. Qed.

Example encode_foobar : uint8ToBase64 (bytes_of "foobar") = Ok (lit "Zm9vYmFy").
Proof. reflexivity. Qed.

Example encode_binary :
  uint8ToBase64 [x00; xff; x80; x00] = Ok (lit "AP+AAA==").
Proof. reflexivity. Qed.

Example encode_chunks_of_two :
  uint8ToBase64_chunked 2 (bytes_of "fooba") = Ok (lit "Zm9vYmE=").
Proof. reflexivity. Qed.

Example decode_foob : base64ToUint8 (lit "Zm9vYg==") = Ok (bytes_of "foob").
Proof. reflexivity. Qed.

Example decode_binary :
  base64ToUint8 (lit "AP+AAA==") = Ok [x00; xff; x80; x00].
Proof. reflexivity. Qed.

Example decode_single : base64ToUint8 (lit "Z") = Throw InvalidCharacterError.
Proof. reflexivity. Qed.

Example replace_suffix :
  String_replace (lit "report.pdf.compressed.txt") (lit ".compressed.txt") []
  = lit "report.pdf".
Proof. reflexivity. Qed.

Example replace_first_only :
  String_replace (lit "a.compressed.txt.compressed.txt") (lit ".compressed.txt") []
  = lit "a.compressed.txt".
Proof. reflexivity. Qed.

(** * Properties *)

Ltac Zify.zify_post_hook ::= Z.to_euclidean_division_equations.

(** ** Lists *)

Lemma list_ind3 {A} (P : list A -> Prop) :
  P [] -> (forall a, P [a]) -> (forall a b, P [a; b]) ->
  (forall a b c l, P l -> P (a :: b :: c :: l)) ->
  forall l, P l.
Proof.
  intros H0 H1 H2 H3 l.
  enough (H : P l /\ (forall a, P (a :: l)) /\ (forall a b, P (a :: b :: l)))
    by apply H.
  induction l as [| x l [IH0 [IH1 IH2]]].
  - auto.
  - repeat split; auto.
Qed.

Lemma filter_forallb {A} (f : A -> bool) (l : list A) :
  forallb f l = true -> filter f l = l.
Proof.
  induction l as [| x l IH]; simpl; [reflexivity |].
  intros H. apply andb_true_iff in H. destruct H as [Hx Hl].
  rewrite Hx, IH by assumption. reflexivity.
Qed.

Lemma map_nth_seq {A} (d : A) (l : list A) :
  map (fun i => nth i l d) (seq 0 (length l)) = l.
Proof.
  induction l as [| x l IH]; simpl; [reflexivity |].
  rewrite <- seq_shift, map_map. simpl. rewrite IH. reflexivity.
Qed.

Lemma below_forallb (P : N -> bool) (n : nat) :
  forallb P (map N.of_nat (seq 0 n)) = true ->
  forall i, i < N.of_nat n -> P i = true.
Proof.
  intros H i Hi. rewrite forallb_forall in H. apply H.
  apply in_map_iff. exists (N.to_nat i). split; [apply N2Nat.id |].
  apply in_seq. lia.
Qed.

(** ** Arithmetic of the bit operations *)

Lemma lor_add_disjoint (k x y : N) :
  x mod 2 ^ k = 0 -> y < 2 ^ k -> N.lor x y = x + y.
Proof.
  intros Hx Hy.
  assert (Hland : N.land x y = 0).
  { apply N.bits_inj. intros n. rewrite N.land_spec, N.bits_0.
    destruct (N.lt_ge_cases n k) as [Hn | Hn].
    - rewrite <- (N.mod_pow2_bits_low x k n Hn), Hx, N.bits_0. reflexivity.
    - destruct (N.eq_dec y 0) as [-> | Hy0].
      + rewrite N.bits_0. apply andb_false_r.
      + rewrite (N.bits_above_log2 y n); [apply andb_false_r |].
        apply N.lt_le_trans with k; [| assumption].
        apply N.log2_lt_pow2; [lia | assumption]. }
  rewrite <- N.lxor_lor by assumption.
  symmetry. apply N.add_nocarry_lxor. assumption.
Qed.

(** Shifts and masks by constants, as multiplications, quotients and
    remainders. *)
Ltac bits_to_arith :=
  change 3 with (N.ones 2); change 15 with (N.ones 4);
  change 63 with (N.ones 6); change 255 with (N.ones 8);
  rewrite ?N.land_ones, ?N.shiftr_div_pow2, ?N.shiftl_mul_pow2;
  change (2 ^ 2) with 4; change (2 ^ 4) with 16; change (2 ^ 6) with 64;
  change (2 ^ 8) with 256; change (2 ^ 12) with 4096;
  change (2 ^ 16) with 65536; change (2 ^ 18) with 262144.

Ltac disjoint k x :=
  rewrite (lor_add_disjoint k x) by (vm_compute (2 ^ k); lia).

Lemma sextets_of_three (a b c : N) :
  a < 256 -> b < 256 -> c < 256 ->
  N.shiftr a 2 < 64
  /\ N.lor (N.shiftl (N.land a 3) 4) (N.shiftr b 4) < 64
  /\ N.lor (N.shiftl (N.land b 15) 2) (N.shiftr c 6) < 64
  /\ N.land c 63 < 64
  /\ N.shiftl (N.land a 3) 4 < 64
  /\ N.shiftl (N.land b 15) 2 < 64.
Proof.
  intros Ha Hb Hc. bits_to_arith.
  disjoint 4 (a mod 4 * 16). disjoint 2 (b mod 16 * 4).
  repeat split; lia.
Qed.

Lemma decode_three (a b c : N) :
  a < 256 -> b < 256 -> c < 256 ->
  let n := N.lor (N.lor (N.lor (N.shiftl (N.shiftr a 2) 18)
             (N.shiftl (N.lor (N.shiftl (N.land a 3) 4) (N.shiftr b 4)) 12))
             (N.shiftl (N.lor (N.shiftl (N.land b 15) 2) (N.shiftr c 6)) 6))
             (N.land c 63) in
  N.land (N.shiftr n 16) 255 = a /\ N.land (N.shiftr n 8) 255 = b
  /\ N.land n 255 = c.
Proof.
  intros Ha Hb Hc. cbv zeta. bits_to_arith.
  disjoint 4 (a mod 4 * 16). disjoint 2 (b mod 16 * 4).
  disjoint 18 (a / 4 * 262144). disjoint 12 (a / 4 * 262144 + (a mod 4 * 16 + b / 16) * 4096).
  disjoint 6 (a / 4 * 262144 + (a mod 4 * 16 + b / 16) * 4096 + (b mod 16 * 4 + c / 64) * 64).
  repeat split; lia.
Qed.

Lemma decode_two (a b : N) :
  a < 256 -> b < 256 ->
  let n := N.shiftr (N.lor (N.lor (N.shiftl (N.shiftr a 2) 12)
             (N.shiftl (N.lor (N.shiftl (N.land a 3) 4) (N.shiftr b 4)) 6))
             (N.shiftl (N.land b 15) 2)) 2 in
  N.land (N.shiftr n 8) 255 = a /\ N.land n 255 = b.
Proof.
  intros Ha Hb. cbv zeta. bits_to_arith.
  disjoint 4 (a mod 4 * 16).
  disjoint 12 (a / 4 * 4096). disjoint 6 (a / 4 * 4096 + (a mod 4 * 16 + b / 16) * 64).
  split; lia.
Qed.

Lemma decode_one (a : N) :
  a < 256 ->
  N.land (N.shiftr (N.lor (N.shiftl (N.shiftr a 2) 6)
                      (N.shiftl (N.land a 3) 4)) 4) 255 = a.
Proof.
  intros Ha. bits_to_arith. disjoint 6 (a / 4 * 64). lia.
Qed.

(** ** The alphabet *)

Lemma char_sextet_sextet_char (i : N) :
  i < 64 -> char_sextet (sextet_char i) = Some i.
Proof.
  intros Hi.
  pose (P := fun i => match char_sextet (sextet_char i) with
                      | Some j => j =? i
                      | None => false
                      end).
  assert (HP : P i = true)
    by (apply (below_forallb P 64); [vm_compute; reflexivity | exact Hi]).
  unfold P in HP. destruct (char_sextet (sextet_char i)) as [j |]; [| discriminate].
  apply N.eqb_eq in HP. congruence.
Qed.

Lemma sextet_char_plain (i : N) :
  is_ascii_whitespace (sextet_char i) = false
  /\ (sextet_char i =? pad_char) = false.
Proof.
  destruct (N.lt_ge_cases i 64) as [Hi | Hi].
  - pose (P := fun i => negb (is_ascii_whitespace (sextet_char i))
                        && negb (sextet_char i =? pad_char)).
    assert (HP : P i = true)
      by (apply (below_forallb P 64); [vm_compute; reflexivity | exact Hi]).
    unfold P in HP. apply andb_true_iff in HP. destruct HP as [H1 H2].
    apply negb_true_iff in H1, H2. auto.
  - unfold sextet_char. rewrite nth_overflow; [split; reflexivity |].
    change (length base64_alphabet) with 64%nat. lia.
Qed.

Lemma sextets_of_map (s : list N) :
  Forall (fun i => i < 64) s -> sextets_of (map sextet_char s) = Some s.
Proof.
  induction 1 as [| i s Hi _ IH]; simpl; [reflexivity |].
  rewrite char_sextet_sextet_char, IH by assumption. reflexivity.
Qed.

(** ** The encoder *)

Lemma base64_encode_parts (data : list N) :
  base64_encode data = map sextet_char (encode_sextets data) ++ encode_padding data.
Proof.
  induction data as [| a | a b | a b c rest IH] using list_ind3;
    try reflexivity.
  cbn [base64_encode encode_sextets encode_padding map app].
  rewrite IH. reflexivity.
Qed.

Lemma encode_padding_cases (data : list N) :
  encode_padding data = [] \/ encode_padding data = [pad_char]
  \/ encode_padding data = [pad_char; pad_char].
Proof.
  induction data as [| a | a b | a b c rest IH] using list_ind3; simpl; auto.
Qed.

Lemma base64_encode_length (data : list N) :
  N.of_nat (length (base64_encode data)) mod 4 = 0.
Proof.
  induction data as [| a | a b | a b c rest IH] using list_ind3;
    try reflexivity.
  cbn [base64_encode length]. lia.
Qed.

Lemma encode_sextets_length (data : list N) :
  N.of_nat (length (encode_sextets data)) mod 4 <> 1.
Proof.
  induction data as [| a | a b | a b c rest IH] using list_ind3;
    try (vm_compute; discriminate).
  cbn [encode_sextets length]. lia.
Qed.

Lemma encode_sextets_bound (data : list N) :
  octets data -> Forall (fun i => i < 64) (encode_sextets data).
Proof.
  unfold octets.
  induction data as [| a | a b | a b c rest IH] using list_ind3; intros H.
  - constructor.
  - inversion_clear H as [| ? ? Ha _].
    destruct (sextets_of_three a a a Ha Ha Ha) as (? & _ & _ & _ & ? & _).
    cbn [encode_sextets]. repeat (apply Forall_cons; [assumption |]); auto.
  - inversion_clear H as [| ? ? Ha H']. inversion_clear H' as [| ? ? Hb _].
    destruct (sextets_of_three a b b Ha Hb Hb) as (? & ? & _ & _ & _ & ?).
    cbn [encode_sextets]. repeat (apply Forall_cons; [assumption |]); auto.
  - inversion_clear H as [| ? ? Ha H']. inversion_clear H' as [| ? ? Hb H''].
    inversion_clear H'' as [| ? ? Hc Hrest].
    destruct (sextets_of_three a b c Ha Hb Hc) as (? & ? & ? & ? & _).
    cbn [encode_sextets]. repeat (apply Forall_cons; [assumption |]); auto.
Qed.

Lemma decode_encode_sextets (data : list N) :
  octets data -> decode_sextets (encode_sextets data) = data.
Proof.
  unfold octets.
  induction data as [| a | a b | a b c rest IH] using list_ind3; intros H.
  - reflexivity.
  - inversion_clear H as [| ? ? Ha _].
    cbn [encode_sextets decode_sextets]. rewrite decode_one by assumption.
    reflexivity.
  - inversion_clear H as [| ? ? Ha H']. inversion_clear H' as [| ? ? Hb _].
    cbn [encode_sextets decode_sextets].
    destruct (decode_two a b Ha Hb) as [E1 E2]. cbv zeta in E1, E2.
    rewrite E1, E2. reflexivity.
  - inversion_clear H as [| ? ? Ha H']. inversion_clear H' as [| ? ? Hb H''].
    inversion_clear H'' as [| ? ? Hc Hrest].
    cbn [encode_sextets decode_sextets].
    destruct (decode_three a b c Ha Hb Hc) as (E1 & E2 & E3).
    cbv zeta in E1, E2, E3. rewrite E1, E2, E3, IH by assumption.
    reflexivity.
Qed.

(** ** The decoder on the encoder's output *)

Lemma strip_whitespace_encode (data : list N) :
  strip_whitespace (base64_encode data) = base64_encode data.
Proof.
  unfold strip_whitespace. apply filter_forallb. rewrite base64_encode_parts.
  rewrite forallb_app. apply andb_true_iff. split.
  - apply forallb_forall. intros c Hc. apply in_map_iff in Hc.
    destruct Hc as (i & <- & _).
    destruct (sextet_char_plain i) as [-> _]. reflexivity.
  - destruct (encode_padding_cases data) as [-> | [-> | ->]]; reflexivity.
Qed.

Lemma strip_padding_encode (data : list N) :
  strip_padding (base64_encode data) = map sextet_char (encode_sextets data).
Proof.
  rewrite base64_encode_parts. generalize (encode_sextets data) as s. intros s.
  unfold strip_padding. rewrite rev_app_distr, <- map_rev.
  assert (Hrev : rev (map sextet_char (rev s)) = map sextet_char s)
    by (rewrite <- map_rev, rev_involutive; reflexivity).
  destruct (encode_padding_cases data) as [-> | [-> | ->]]; cbn [rev app].
  - rewrite app_nil_r.
    destruct (rev s) as [| p [| q r]] eqn:E; cbn [map];
      try (destruct (sextet_char_plain p) as [_ ->]); reflexivity.
  - destruct (rev s) as [| q r] eqn:E; cbn [map].
    + apply (f_equal (@rev N)) in E. rewrite rev_involutive in E. subst s.
      reflexivity.
    + change (pad_char =? pad_char) with true. cbv iota.
      destruct (sextet_char_plain q) as [_ ->]. exact Hrev.
  - exact Hrev.
Qed.

Lemma atob_base64_encode (data : list N) :
  octets data -> atob (base64_encode data) = Ok data.
Proof.
  intros H. unfold atob. rewrite strip_whitespace_encode.
  rewrite base64_encode_length. cbn [N.eqb].
  rewrite strip_padding_encode, length_map.
  destruct (N.eqb_spec (N.of_nat (length (encode_sextets data)) mod 4) 1) as [E | _].
  - exfalso. exact (encode_sextets_length data E).
  - rewrite sextets_of_map by (apply encode_sextets_bound; exact H).
    rewrite decode_encode_sextets by exact H. reflexivity.
Qed.

(** ** The loops of the two helpers *)

Lemma subarray_chunk (u8 : Uint8Array) (i : N) (cs : positive) :
  subarray u8 i (i + Npos cs) ++ skipn (N.to_nat (i + Npos cs)) u8
  = skipn (N.to_nat i) u8.
Proof.
  unfold subarray.
  destruct (N.le_gt_cases (N.of_nat (length u8)) i) as [Hi | Hi].
  - rewrite !skipn_all2 by lia. rewrite firstn_nil. reflexivity.
  - rewrite (N.min_l i) by lia.
    destruct (N.le_gt_cases (i + Npos cs) (N.of_nat (length u8))) as [He | He].
    + rewrite N.min_l by lia.
      replace (N.to_nat (i + Npos cs))
        with (N.to_nat (i + Npos cs - i) + N.to_nat i)%nat by lia.
      rewrite <- skipn_skipn. apply firstn_skipn.
    + rewrite N.min_r by lia.
      rewrite (skipn_all2 u8 (n := N.to_nat (i + Npos cs))) by lia.
      rewrite app_nil_r. apply firstn_all2. rewrite length_skipn. lia.
Qed.

Lemma chunk_loop_spec (cs : positive) (u8 : Uint8Array) (i : N) (binary : jsstring) :
  chunk_loop cs u8 i binary
  = binary ++ fromCharCode_apply (skipn (N.to_nat i) u8).
Proof.
  funelim (chunk_loop cs u8 i binary).
  - match goal with IH : chunk_loop _ _ _ _ = _ ++ _ |- _ => rewrite IH end.
    rewrite <- app_assoc. unfold fromCharCode_apply.
    rewrite <- map_app, subarray_chunk. reflexivity.
  - match goal with
    | E : (_ <? _) = false |- _ => pose proof (proj1 (N.ltb_ge _ _) E) as Hge
    end.
    rewrite skipn_all2 by lia. rewrite app_nil_r. reflexivity.
Qed.

Lemma store_append (pre : Uint8Array) (v : byte) (n : nat) :
  store (pre ++ repeat x00 (S n)) (length pre) v = (pre ++ [v]) ++ repeat x00 n.
Proof.
  induction pre as [| h pre IH]; simpl; [reflexivity |].
  simpl in IH. rewrite IH. reflexivity.
Qed.

Lemma fill_loop_from (f : nat -> byte) (n : nat) (pre : Uint8Array) :
  fold_left (fun u8 i => store u8 i (f i)) (seq (length pre) n)
    (pre ++ repeat x00 n)
  = pre ++ map f (seq (length pre) n).
Proof.
  revert pre. induction n as [| n IH]; intros pre; [reflexivity |].
  cbn [seq fold_left map]. rewrite store_append.
  replace (S (length pre)) with (length (pre ++ [f (length pre)]))
    by (rewrite length_app; simpl; lia).
  rewrite IH, <- app_assoc. reflexivity.
Qed.

Lemma fill_loop_spec (binary : jsstring) :
  fill_loop binary (length binary) = map ToUint8 binary.
Proof.
  unfold fill_loop, charCodeAt.
  pose proof (fill_loop_from (fun i => ToUint8 (nth i binary 0))
                (length binary) []) as H.
  cbn [app length] in H. rewrite H.
  rewrite <- (map_map (fun i => nth i binary 0) ToUint8), map_nth_seq.
  reflexivity.
Qed.

Lemma ToUint8_to_N (b : byte) : ToUint8 (Byte.to_N b) = b.
Proof.
  unfold ToUint8. pose proof (Byte.to_N_bounded b) as Hb.
  rewrite N.mod_small by lia. rewrite Byte.of_to_N. reflexivity.
Qed.

Lemma fromCharCode_octets (u8 : Uint8Array) : octets (fromCharCode_apply u8).
Proof.
  unfold octets, fromCharCode_apply. apply Forall_map, Forall_forall.
  intros b _. pose proof (Byte.to_N_bounded b). lia.
Qed.

Lemma btoa_fromCharCode (u8 : Uint8Array) :
  btoa (fromCharCode_apply u8) = Ok (base64_encode (fromCharCode_apply u8)).
Proof.
  unfold btoa.
  replace (forallb (fun c => c <=? 255) (fromCharCode_apply u8)) with true;
    [reflexivity |].
  symmetry. apply forallb_forall. intros c Hc.
  pose proof (fromCharCode_octets u8) as H. unfold octets in H.
  rewrite Forall_forall in H. apply N.leb_le. specialize (H c Hc). lia.
Qed.

Lemma uint8ToBase64_chunked_spec (cs : positive) (u8 : Uint8Array) :
  uint8ToBase64_chunked cs u8 = Ok (base64_encode (fromCharCode_apply u8)).
Proof.
  unfold uint8ToBase64_chunked. rewrite chunk_loop_spec.
  cbn [N.to_nat skipn app]. apply btoa_fromCharCode.
Qed.

Lemma base64ToUint8_encode (u8 : Uint8Array) :
  base64ToUint8 (base64_encode (fromCharCode_apply u8)) = Ok u8.
Proof.
  unfold base64ToUint8.
  rewrite atob_base64_encode by apply fromCharCode_octets.
  cbn [result_bind]. rewrite fill_loop_spec. unfold fromCharCode_apply.
  rewrite map_map. f_equal. rewrite <- (map_id u8) at 2.
  apply map_ext. intros b. apply ToUint8_to_N.
Qed.

(** ** [String.prototype.replace] *)

Lemma starts_with_app (pat post : jsstring) : starts_with (pat ++ post) pat = true.
Proof.
  induction pat as [| p pat IH]; simpl; [reflexivity |].
  rewrite N.eqb_refl, IH. reflexivity.
Qed.

Lemma starts_with_firstn (s pat : jsstring) :
  starts_with s pat = starts_with (firstn (length pat) s) pat.
Proof.
  revert s. induction pat as [| p pat IH]; intros s; [reflexivity |].
  destruct s as [| c s]; simpl; [reflexivity |].
  rewrite <- IH. reflexivity.
Qed.

Lemma String_replace_absent (s pat rep : jsstring) :
  includes s pat = false -> String_replace s pat rep = s.
Proof.
  induction s as [| c s IH]; simpl.
  - destruct (starts_with [] pat); [discriminate | reflexivity].
  - destruct (starts_with (c :: s) pat); [discriminate |].
    intros H. rewrite IH by exact H. reflexivity.
Qed.

Lemma starts_with_later (x pat post : jsstring) :
  x <> [] -> pat <> [] ->
  starts_with (x ++ pat ++ post) pat = starts_with (x ++ removelast pat) pat.
Proof.
  intros Hx Hp.
  rewrite (starts_with_firstn (x ++ pat ++ post)).
  rewrite (starts_with_firstn (x ++ removelast pat)).
  f_equal.
  assert (Hlen : (length pat <= length (x ++ removelast pat))%nat).
  { rewrite length_app.
    assert (length pat = S (length (removelast pat))).
    { pose proof (app_removelast_last 0 Hp) as E.
      apply (f_equal (@length N)) in E. rewrite length_app in E.
      cbn [length] in E. lia. }
    destruct x; [congruence | simpl; lia]. }
  rewrite (app_removelast_last 0 Hp) at 2.
  rewrite <- app_assoc, (app_assoc x).
  rewrite firstn_app.
  replace (length pat - length (x ++ removelast pat))%nat with 0%nat by lia.
  rewrite firstn_O, app_nil_r. reflexivity.
Qed.

Lemma String_replace_here (s pat rep : jsstring) :
  starts_with s pat = true ->
  String_replace s pat rep = rep ++ skipn (length pat) s.
Proof.
  intros H. destruct s; simpl; rewrite H; reflexivity.
Qed.

Lemma String_replace_later (c : code_unit) (s pat rep : jsstring) :
  starts_with (c :: s) pat = false ->
  String_replace (c :: s) pat rep = c :: String_replace s pat rep.
Proof.
  intros H. simpl. simpl in H. rewrite H. reflexivity.
Qed.

Lemma String_replace_first (pre pat post rep : jsstring) :
  pat <> [] -> includes (pre ++ removelast pat) pat = false ->
  String_replace (pre ++ pat ++ post) pat rep = pre ++ rep ++ post.
Proof.
  intros Hp. induction pre as [| c pre IH]; intros H.
  - cbn [app]. rewrite String_replace_here by apply starts_with_app.
    rewrite skipn_app, skipn_all, Nat.sub_diag. reflexivity.
  - cbn [app includes] in H.
    destruct (starts_with (c :: pre ++ removelast pat) pat) eqn:E;
      [discriminate |].
    change ((c :: pre) ++ pat ++ post) with (c :: pre ++ pat ++ post).
    rewrite String_replace_later.
    + rewrite IH by exact H. reflexivity.
    + change (c :: pre ++ pat ++ post) with ((c :: pre) ++ pat ++ post).
      rewrite starts_with_later by (assumption || discriminate). exact E.
Qed.

(** ** What the decoder rejects *)

Lemma strip_padding_cases (d : jsstring) :
  exists t, d = strip_padding d ++ t
            /\ (t = [] \/ t = [pad_char] \/ t = [pad_char; pad_char]).
Proof.
  unfold strip_padding.
  assert (Hd : d = rev (rev d)) by (symmetry; apply rev_involutive).
  destruct (rev d) as [| p [| q r]]; cbn [rev app] in Hd.
  - exists []. rewrite app_nil_r. auto.
  - destruct (N.eqb_spec p pad_char) as [-> | _].
    + exists [pad_char]. auto.
    + exists []. rewrite app_nil_r. auto.
  - destruct (N.eqb_spec p pad_char) as [-> | _].
    + destruct (N.eqb_spec q pad_char) as [-> | _].
      * exists [pad_char; pad_char]. rewrite <- app_assoc in Hd. auto.
      * exists [pad_char]. cbn [rev]. auto.
    + exists []. rewrite app_nil_r. auto.
Qed.

Lemma sextets_of_outside (d : jsstring) (c : code_unit) :
  In c d -> char_sextet c = None -> sextets_of d = None.
Proof.
  induction d as [| x d IH]; intros Hin Hc; [contradiction |].
  cbn [sextets_of]. destruct Hin as [-> | Hin].
  - rewrite Hc. reflexivity.
  - rewrite (IH Hin Hc). destruct (char_sextet x); reflexivity.
Qed.

(** The decoder throws as soon as a character outside the alphabet is left
    after the whitespace and the trailing padding have been removed. *)
Lemma atob_outside (b64 : jsstring) (c : code_unit) :
  In c (strip_whitespace b64) -> char_sextet c = None ->
  (c <> pad_char
   \/ N.of_nat (length (strip_whitespace b64)) mod 4 <> 0
   \/ exists k, nth_error (strip_whitespace b64) k = Some c
                /\ (k < length (strip_padding (strip_whitespace b64)))%nat) ->
  atob b64 = Throw InvalidCharacterError.
Proof.
  intros Hin Hc Hstay. unfold atob.
  set (d := strip_whitespace b64) in *.
  destruct (N.eqb_spec (N.of_nat (length d) mod 4) 0) as [Hmod | Hmod].
  - destruct (_ =? 1); [reflexivity |].
    rewrite (sextets_of_outside (strip_padding d) c); [reflexivity | | exact Hc].
    destruct (strip_padding_cases d) as (t & Hd & Ht).
    destruct Hstay as [Hpad | [Hno | (k & Hk & Hlt)]].
    2: contradiction.
    + rewrite Hd in Hin. apply in_app_or in Hin. destruct Hin as [Hin | Hin];
        [exact Hin |].
      destruct Ht as [-> | [-> | ->]]; simpl in Hin; intuition congruence.
    + rewrite Hd, nth_error_app1 in Hk by exact Hlt.
      apply nth_error_In in Hk. exact Hk.
  - destruct (_ =? 1); [reflexivity |].
    rewrite (sextets_of_outside d c Hin Hc). reflexivity.
Qed.

Lemma misplaced_padding_stays (d : jsstring) :
  misplaced_padding d -> N.of_nat (length d) mod 4 = 0 ->
  exists k, nth_error d k = Some pad_char
            /\ (k < length (strip_padding d))%nat.
Proof.
  intros (pre & post & Hd & Hwhy) Hlen.
  exists (length pre).
  assert (Hk : nth_error d (length pre) = Some pad_char).
  { rewrite Hd, nth_error_app2, Nat.sub_diag by lia. reflexivity. }
  split; [exact Hk |].
  destruct (strip_padding_cases d) as (t & Hsp & Ht).
  assert (Hlt : (length t <= 2)%nat)
    by (destruct Ht as [-> | [-> | ->]]; simpl; lia).
  assert (Hsum : length d = (length (strip_padding d) + length t)%nat)
    by (rewrite Hsp at 1; apply length_app).
  assert (Hdlen : length d = (length pre + S (length post))%nat)
    by (rewrite Hd, length_app; reflexivity).
  destruct Hwhy as [Hmod | [Hpost | (c & Hc & Hcpad)]].
  - contradiction.
  - lia.
  - apply In_nth_error in Hc. destruct Hc as (j & Hj).
    assert (Hjd : nth_error d (length pre + S j) = Some c).
    { rewrite Hd, nth_error_app2 by lia.
      replace (length pre + S j - length pre)%nat with (S j) by lia.
      exact Hj. }
    destruct (Nat.lt_ge_cases (length pre + S j) (length (strip_padding d)))
      as [Hin | Hout]; [lia |].
    exfalso. rewrite Hsp, nth_error_app2 in Hjd by exact Hout.
    apply nth_error_In in Hjd.
    destruct Ht as [-> | [-> | ->]]; simpl in Hjd; intuition congruence.
Qed.

Lemma atob_rejected (b64 : jsstring) :
  rejected_payload b64 -> atob b64 = Throw InvalidCharacterError.
Proof.
  intros [(c & Hin & Halpha & Hpad & Hws) | [Hlen | Hmis]].
  - apply (atob_outside b64 c).
    + apply filter_In. split; [exact Hin | rewrite Hws; reflexivity].
    + unfold in_alphabet in Halpha.
      destruct (char_sextet c); [discriminate | reflexivity].
    + left. exact Hpad.
  - unfold atob. rewrite Hlen. change (1 =? 0) with false. cbv iota.
    rewrite Hlen. reflexivity.
  - destruct (N.eq_dec (N.of_nat (length (strip_whitespace b64)) mod 4) 0)
      as [Hmod | Hmod].
    + destruct (misplaced_padding_stays _ Hmis Hmod) as (k & Hk & Hlt).
      apply (atob_outside b64 pad_char).
      * apply nth_error_In in Hk. exact Hk.
      * reflexivity.
      * right. right. exists k. auto.
    + destruct Hmis as (pre & post & Hd & _).
      apply (atob_outside b64 pad_char).
      * rewrite Hd. apply in_or_app. right. left. reflexivity.
      * reflexivity.
      * right. left. exact Hmod.
Qed.

(** ** The runs of the two handlers *)

Lemma uint8ToBase64_ok (u8 : Uint8Array) :
  uint8ToBase64 u8 = Ok (base64_encode (fromCharCode_apply u8)).
Proof. apply uint8ToBase64_chunked_spec. Qed.

Ltac run_handler :=
  unfold exec, handleFileUpload, handleFileUpload_begin, handleFileUpload_run,
    handleTxtUpload, handleTxtUpload_begin, readAsText, onload,
    try_catch_finally, bind, await, ret,
    setCompressedText, setFileName, setRestoredBlob, setError,
    setIsCompressing, setIsDecompressing;
  cbn [fst snd compressedText fileName restoredBlob error isCompressing
       isDecompressing].

Section Runs.
Context {CS : CompressionStreams}.

Lemma handleFileUpload_done (file : File) (bytes : Uint8Array) (s : State) :
  stream file = Ok bytes ->
  exec (handleFileUpload (Some file)) s
  = mkState (base64_encode (fromCharCode_apply (gzip bytes))) (name file)
      (restoredBlob s) None false (isDecompressing s).
Proof.
  intros H. run_handler. unfold compress. rewrite H. cbn [result_bind].
  rewrite uint8ToBase64_ok. reflexivity.
Qed.

Lemma handleFileUpload_failed (file : File) (e : Error) (s : State) :
  stream file = Throw e ->
  exec (handleFileUpload (Some file)) s
  = mkState (compressedText s) (name file) (restoredBlob s)
      (Some (lit "Failed to compress file: " ++ err_message e)) false
      (isDecompressing s).
Proof.
  intros H. run_handler. unfold compress. rewrite H. reflexivity.
Qed.

Lemma compress_stages_throw (file : File) (e : Error) :
  compress_stages file = Throw e -> stream file = Throw e.
Proof.
  unfold compress_stages, compress. destruct (stream file) as [bytes | e'].
  - cbn [result_bind]. rewrite uint8ToBase64_ok. discriminate.
  - cbn [result_bind]. intros H. inversion H. reflexivity.
Qed.

Lemma handleTxtUpload_unread (file : File) (s : State) :
  text file = None ->
  exec (handleTxtUpload (Some file)) s
  = mkState (compressedText s) (fileName s) (restoredBlob s) None
      (isCompressing s) true.
Proof.
  intros H. run_handler. rewrite H. reflexivity.
Qed.

Lemma handleTxtUpload_done (file : File) (t : jsstring) (out : Uint8Array)
  (s : State) :
  text file = Some t -> restore_stages t = Ok out ->
  exec (handleTxtUpload (Some file)) s
  = mkState (compressedText s) (fileName s) (Some out) None
      (isCompressing s) false.
Proof.
  intros Ht H. run_handler. rewrite Ht. unfold restore_stages in H.
  destruct (base64ToUint8 t) as [c | e]; cbn [result_bind] in H;
    [| discriminate].
  rewrite H. reflexivity.
Qed.

Lemma handleTxtUpload_failed (file : File) (t : jsstring) (e : Error)
  (s : State) :
  text file = Some t -> restore_stages t = Throw e ->
  exec (handleTxtUpload (Some file)) s
  = mkState (compressedText s) (fileName s) (restoredBlob s)
      (Some (Error_toString e
             ++ lit "Error decompressing file. Maybe wrong TXT format?"))
      (isCompressing s) false.
Proof.
  intros Ht H. run_handler. rewrite Ht. unfold restore_stages in H.
  destruct (base64ToUint8 t) as [c | e']; cbn [result_bind] in H.
  - rewrite H. reflexivity.
  - inversion H. reflexivity.
Qed.

End Runs.

(** * The claims *)

(** ** The codec *)

(** C2. Codec round trip: for every byte sequence [b], of every length
    (the empty one, leading or trailing zero bytes and non-printable bytes
    included), decoding the encoding of [b] returns exactly [b]:
    [base64ToUint8 (uint8ToBase64 b) = b]. *)
Theorem codec_round_trip (b : Uint8Array) :
  result_bind (uint8ToBase64 b) base64ToUint8 = Ok b.
Proof.
  rewrite uint8ToBase64_ok. cbn [result_bind]. apply base64ToUint8_encode.
Qed.

(** C3. Chunking transparency: for every byte sequence [b], encoding it
    chunk by chunk, as [uint8ToBase64] does with chunks of 0x8000 bytes,
    gives the same string as encoding the whole input in one unchunked call;
    and the same holds for every other chunk size, so the chunk size never
    shows in the output. *)
Theorem chunking_transparent (b : Uint8Array) :
  uint8ToBase64 b = uint8ToBase64_unchunked b
  /\ forall cs : positive, uint8ToBase64_chunked cs b = uint8ToBase64_unchunked b.
Proof.
  unfold uint8ToBase64_unchunked. rewrite btoa_fromCharCode. split.
  - apply uint8ToBase64_ok.
  - intros cs. apply uint8ToBase64_chunked_spec.
Qed.

(** C8. Empty input: encoding the empty byte sequence succeeds and returns
    exactly the empty string. *)
Theorem encode_empty : uint8ToBase64 [] = Ok [].
Proof.
  rewrite uint8ToBase64_ok. reflexivity.
Qed.

(** C4, as stated, fails: a payload with a space in it, a character outside
    the 64-symbol alphabet and different from the padding character, is
    decoded to bytes, and so is a payload without its padding. *)
Lemma whitespace_payload_decoded :
  In 32 (lit "SGVs bG8=") /\ in_alphabet 32 = false /\ 32 <> pad_char
  /\ base64ToUint8 (lit "SGVs bG8=") = Ok (bytes_of "Hello")
  /\ base64ToUint8 (lit "SGVsbG8") = Ok (bytes_of "Hello").
Proof.
  repeat split; try (vm_compute; reflexivity).
  - vm_compute. tauto.
  - discriminate.
Qed.

Section Claims.
Context {CS : CompressionStreams}.

(** C4, amended. Malformed payload rejection: for every input string that
    contains a character that is neither one of the 64 alphabet symbols, nor
    the padding character, nor ASCII whitespace (for example a percent
    sign), or whose length without whitespace is one more than a multiple of
    four, or in which a padding character is not removed as trailing padding
    (the length without whitespace is not a multiple of four, or the padding
    character has two or more characters after it, or a character other
    than padding after it), the decode operation throws instead of
    returning bytes; the restore handler then shows an error message and
    leaves the restored result as it was. *)
Theorem malformed_payload_rejected (b64 : jsstring) (file : File) (s : State) :
  rejected_payload b64 -> text file = Some b64 ->
  base64ToUint8 b64 = Throw InvalidCharacterError
  /\ error (exec (handleTxtUpload (Some file)) s)
     = Some (Error_toString InvalidCharacterError
             ++ lit "Error decompressing file. Maybe wrong TXT format?")
  /\ restoredBlob (exec (handleTxtUpload (Some file)) s) = restoredBlob s.
Proof.
  intros Hrej Htext.
  assert (Hdec : base64ToUint8 b64 = Throw InvalidCharacterError)
    by (unfold base64ToUint8; rewrite (atob_rejected b64 Hrej); reflexivity).
  split; [exact Hdec |].
  rewrite (handleTxtUpload_failed file b64 InvalidCharacterError s Htext)
    by (unfold restore_stages; rewrite Hdec; reflexivity).
  split; reflexivity.
Qed.

(** C7. Failure atomicity: when a run of either direction fails at any
    stage, both result slots are left as they were; the restored result of
    an earlier restore run is not cleared, the other direction's result is
    kept, and nothing partial is stored. *)
Theorem failed_run_keeps_results (file : File) (s : State) :
  ((exists e, compress_stages file = Throw e) ->
   compressedText (exec (handleFileUpload (Some file)) s) = compressedText s
   /\ restoredBlob (exec (handleFileUpload (Some file)) s) = restoredBlob s)
  /\ (restore_fails file ->
      compressedText (exec (handleTxtUpload (Some file)) s) = compressedText s
      /\ restoredBlob (exec (handleTxtUpload (Some file)) s) = restoredBlob s).
Proof.
  split.
  - intros (e & He). apply compress_stages_throw in He.
    rewrite (handleFileUpload_failed file e s He). split; reflexivity.
  - unfold restore_fails. destruct (text file) as [t |] eqn:Ht.
    + intros (e & He).
      rewrite (handleTxtUpload_failed file t e s Ht He). split; reflexivity.
    + intros _. rewrite (handleTxtUpload_unread file s Ht). split; reflexivity.
Qed.

(** C9. A trigger without a file is a no-op: each upload handler, fired
    with no file present, returns at once and leaves the whole state as it
    was; no error is shown, no result slot changes and no in-flight flag is
    set. *)
Theorem no_file_no_op (s : State) :
  handleFileUpload None s = (Ok tt, s) /\ handleTxtUpload None s = (Ok tt, s).
Proof.
  split; reflexivity.
Qed.

(** C10. Every run with a file present begins by resetting the error to
    null, in both directions, before any processing; a run that then
    succeeds ends with the error still null, so an error shown earlier does
    not survive it. *)
Theorem run_resets_error (file : File) (s : State) :
  (exec (handleFileUpload (Some file)) s
   = exec (handleFileUpload_run file) (exec (handleFileUpload_begin file) s)
   /\ error (exec (handleFileUpload_begin file) s) = None)
  /\ (exec (handleTxtUpload (Some file)) s
      = exec (readAsText file onload) (exec handleTxtUpload_begin s)
      /\ error (exec handleTxtUpload_begin s) = None)
  /\ (forall out, compress_stages file = Ok out ->
      error (exec (handleFileUpload (Some file)) s) = None)
  /\ (forall t out, text file = Some t -> restore_stages t = Ok out ->
      error (exec (handleTxtUpload (Some file)) s) = None).
Proof.
  repeat split.
  - intros out H. unfold compress_stages, compress in H.
    destruct (stream file) as [bytes | e] eqn:E; [| discriminate].
    rewrite (handleFileUpload_done file bytes s E). reflexivity.
  - intros t out Ht H. rewrite (handleTxtUpload_done file t out s Ht H).
    reflexivity.
Qed.

End Claims.

(** ** Download names *)

Lemma handleFileUpload_fileName {CS : CompressionStreams} (file : File) (s : State) :
  fileName (exec (handleFileUpload (Some file)) s) = name file.
Proof.
  destruct (stream file) as [bytes | e] eqn:E.
  - rewrite (handleFileUpload_done file bytes s E). reflexivity.
  - rewrite (handleFileUpload_failed file e s E). reflexivity.
Qed.

(** ** The claims on concrete runs *)

Lemma malformed_payload_rejected_witness :
  rejected_payload (lit "SGVs%bG8=")
  /\ base64ToUint8 (lit "SGVs%bG8=") = Throw InvalidCharacterError.
Proof.
  assert (H : rejected_payload (lit "SGVs%bG8=")).
  { left. exists 37. repeat split.
    - vm_compute. tauto.
    - discriminate.
  }
  split; [exact H |].
  apply (malformed_payload_rejected (CS := framing_codec) (lit "SGVs%bG8=")
           (mkFile (lit "bad.txt") (Ok []) (Some (lit "SGVs%bG8="))) initial H
           eq_refl).
Defined.

Lemma failed_run_keeps_results_witness :
  let s := mkState (lit "H4s=") (lit "old.bin") (Some hello_world) None false false in
  let unreadable := mkFile (lit "gone.bin") (Throw NotReadableError) None in
  let garbled := mkFile (lit "bad.txt") (Ok []) (Some (lit "%%%")) in
  (compressedText (exec (handleFileUpload (CS := framing_codec) (Some unreadable)) s)
   = lit "H4s="
   /\ restoredBlob (exec (handleFileUpload (CS := framing_codec) (Some unreadable)) s)
      = Some hello_world)
  /\ (compressedText (exec (handleTxtUpload (CS := framing_codec) (Some garbled)) s)
      = lit "H4s="
      /\ restoredBlob (exec (handleTxtUpload (CS := framing_codec) (Some garbled)) s)
         = Some hello_world).
Proof.
  intros s unreadable garbled. split.
  - apply (proj1 (failed_run_keeps_results (CS := framing_codec) unreadable s)).
    exists NotReadableError. reflexivity.
  - apply (proj2 (failed_run_keeps_results (CS := framing_codec) garbled s)).
    exists InvalidCharacterError. reflexivity.
Defined.

Lemma run_resets_error_witness :
  let s := mkState [] [] None (Some (lit "Failed to compress file: ")) false false in
  let file := mkFile (lit "hello.txt") (Ok hello_world) (Some (lit "H4tIZWxsbywgV29ybGQh")) in
  error (exec (handleFileUpload (CS := framing_codec) (Some file)) s) = None
  /\ error (exec (handleTxtUpload (CS := framing_codec) (Some file)) s) = None.
Proof.
  intros s file.
  destruct (run_resets_error (CS := framing_codec) file s) as (_ & _ & Hc & Hr).
  split.
  - apply (Hc (lit "H4tIZWxsbywgV29ybGQh")). reflexivity.
  - apply (Hr (lit "H4tIZWxsbywgV29ybGQh") hello_world); reflexivity.
Defined.

(** * Further properties of the code *)

(** ** The encoder's output *)

Lemma base64_encode_size (data : list N) :
  length (base64_encode data) = (4 * ((length data + 2) / 3))%nat.
Proof.
  induction data as [| a | a b | a b c rest IH] using list_ind3;
    try reflexivity.
  cbn [base64_encode length]. rewrite IH.
  replace (S (S (S (length rest))) + 2)%nat with (length rest + 2 + 1 * 3)%nat
    by lia.
  rewrite Nat.div_add by discriminate. lia.
Qed.

Lemma encode_padding_repeat (data : list N) :
  encode_padding data = repeat pad_char ((3 - length data mod 3) mod 3).
Proof.
  induction data as [| a | a b | a b c rest IH] using list_ind3;
    try reflexivity.
  cbn [encode_padding length]. rewrite IH.
  replace (S (S (S (length rest)))) with (length rest + 1 * 3)%nat by lia.
  rewrite Nat.Div0.mod_add. reflexivity.
Qed.

Lemma in_alphabet_sextet_char (i : N) : i < 64 -> in_alphabet (sextet_char i) = true.
Proof.
  intros Hi. unfold in_alphabet. rewrite char_sextet_sextet_char by exact Hi.
  reflexivity.
Qed.

(** X2. The encoder's output is text-safe: alphabet symbols only, followed
    by no padding character when the input length is a multiple of three,
    by two when one byte is left over and by one when two are. *)
Theorem uint8ToBase64_alphabet (u8 : Uint8Array) :
  exists body,
    uint8ToBase64 u8
    = Ok (body ++ repeat pad_char ((3 - length u8 mod 3) mod 3))
    /\ forallb in_alphabet body = true.
Proof.
  exists (map sextet_char (encode_sextets (fromCharCode_apply u8))). split.
  - rewrite uint8ToBase64_ok, base64_encode_parts, encode_padding_repeat.
    replace (length (fromCharCode_apply u8)) with (length u8)
      by (symmetry; apply length_map).
    reflexivity.
  - apply forallb_forall. intros c Hc. apply in_map_iff in Hc.
    destruct Hc as (i & <- & Hi). apply in_alphabet_sextet_char.
    pose proof (encode_sextets_bound _ (fromCharCode_octets u8)) as Hb.
    rewrite Forall_forall in Hb. exact (Hb i Hi).
Qed.

(** X3. Different byte sequences are encoded to different payloads. *)
Theorem uint8ToBase64_injective (b1 b2 : Uint8Array) :
  b1 <> b2 -> uint8ToBase64 b1 <> uint8ToBase64 b2.
Proof.
  intros Hne Heq. apply Hne. rewrite !uint8ToBase64_ok in Heq.
  injection Heq as Heq.
  pose proof (base64ToUint8_encode b1) as H1.
  pose proof (base64ToUint8_encode b2) as H2.
  rewrite Heq in H1. congruence.
Qed.

Lemma base64_encode_app (l1 l2 : list N) :
  (length l1 mod 3 = 0)%nat ->
  base64_encode (l1 ++ l2) = base64_encode l1 ++ base64_encode l2.
Proof.
  induction l1 as [| a | a b | a b c rest IH] using list_ind3; intros H.
  - reflexivity.
  - discriminate.
  - discriminate.
  - cbn [length] in H.
    replace (S (S (S (length rest)))) with (length rest + 1 * 3)%nat in H by lia.
    rewrite Nat.Div0.mod_add in H.
    cbn [app base64_encode]. rewrite (IH H). reflexivity.
Qed.

(** X4. Encoding composes at three-byte boundaries: when the length of
    [b1] is a multiple of three, the encoding of [b1 ++ b2] is the encoding
    of [b1] followed by the encoding of [b2]. *)
Theorem uint8ToBase64_app (b1 b2 : Uint8Array) :
  (length b1 mod 3 = 0)%nat ->
  exists p1 p2,
    uint8ToBase64 b1 = Ok p1 /\ uint8ToBase64 b2 = Ok p2
    /\ uint8ToBase64 (b1 ++ b2) = Ok (p1 ++ p2).
Proof.
  intros H. do 2 eexists. rewrite !uint8ToBase64_ok.
  split; [reflexivity |]. split; [reflexivity |].
  unfold fromCharCode_apply. rewrite map_app.
  rewrite base64_encode_app by (rewrite length_map; exact H). reflexivity.
Qed.

(** X5. Every chunk the loop of [uint8ToBase64] hands to
    [String.fromCharCode.apply] is non-empty and has at most [chunkSize]
    elements: the chunk size when that many bytes are left, and the
    remaining bytes otherwise. *)
Theorem chunk_bounded (u8 : Uint8Array) (i : N) :
  i < N.of_nat (length u8) ->
  N.of_nat (length (subarray u8 i (i + Npos chunkSize)))
  = N.min (Npos chunkSize) (N.of_nat (length u8) - i)
  /\ 0 < N.of_nat (length (subarray u8 i (i + Npos chunkSize))) <= 0x8000.
Proof.
  intros Hi.
  assert (E : N.of_nat (length (subarray u8 i (i + Npos chunkSize)))
              = N.min (Npos chunkSize) (N.of_nat (length u8) - i)).
  { unfold subarray. rewrite length_firstn, length_skipn.
    rewrite (N.min_l i) by lia.
    destruct (N.le_gt_cases (i + Npos chunkSize) (N.of_nat (length u8)));
      [rewrite (N.min_l (i + _)) by lia | rewrite (N.min_r (i + _)) by lia];
      lia. }
  split; [exact E |]. rewrite E. change (Npos chunkSize) with 0x8000. lia.
Qed.

(** ** What the decoder accepts *)

Lemma in_alphabet_plain (c : code_unit) :
  in_alphabet c = true -> is_ascii_whitespace c = false /\ c <> pad_char.
Proof.
  intros H. split.
  - destruct (is_ascii_whitespace c) eqn:E; [| reflexivity].
    unfold is_ascii_whitespace in E.
    repeat (apply orb_true_iff in E; destruct E as [E | E]);
      apply N.eqb_eq in E; subst c; vm_compute in H; discriminate.
  - intros ->. vm_compute in H. discriminate.
Qed.

Lemma sextets_of_alphabet (body : jsstring) (sx : list N) :
  sextets_of body = Some sx ->
  forallb in_alphabet body = true /\ length sx = length body.
Proof.
  revert sx. induction body as [| c body IH]; intros sx H.
  - injection H as <-. split; reflexivity.
  - cbn [sextets_of] in H. cbn [forallb]. unfold in_alphabet at 1.
    destruct (char_sextet c) as [i |]; [| discriminate].
    destruct (sextets_of body) as [l |]; [| discriminate].
    injection H as <-. destruct (IH l eq_refl) as [-> Hlen].
    split; [reflexivity | cbn [length]; rewrite Hlen; reflexivity].
Qed.

Lemma strip_padding_body (body : jsstring) (k : nat) :
  (forall c, In c body -> c <> pad_char) -> (k <= 2)%nat ->
  strip_padding (body ++ repeat pad_char k) = body.
Proof.
  intros Hbody Hk. unfold strip_padding. rewrite rev_app_distr.
  assert (Hhead : forall p r, rev body = p :: r -> (p =? pad_char) = false).
  { intros p r E. apply N.eqb_neq, Hbody, in_rev. rewrite E. left. reflexivity. }
  assert (Hrev : rev (rev body) = body) by apply rev_involutive.
  destruct k as [| [| [| k]]]; [| | | lia]; cbn [repeat rev app].
  - rewrite app_nil_r.
    destruct (rev body) as [| p [| q r]] eqn:E; try reflexivity;
      rewrite (Hhead p _ eq_refl); reflexivity.
  - destruct (rev body) as [| q r] eqn:E.
    + cbn [rev] in Hrev. subst body. reflexivity.
    + change (pad_char =? pad_char) with true. cbv iota.
      rewrite (Hhead q r eq_refl). exact Hrev.
  - exact Hrev.
Qed.

Lemma atob_accepts (t body : jsstring) (sx : list N) (k : nat) :
  strip_whitespace t = body ++ repeat pad_char k ->
  sextets_of body = Some sx ->
  (k = 0%nat /\ N.of_nat (length body) mod 4 <> 1)
  \/ ((k = 1%nat \/ k = 2%nat) /\ N.of_nat (length body + k) mod 4 = 0) ->
  atob t = Ok (decode_sextets sx).
Proof.
  intros Ht Hsx Hshape.
  assert (Hbody : forall c, In c body -> c <> pad_char).
  { destruct (sextets_of_alphabet body sx Hsx) as [Hall _].
    rewrite forallb_forall in Hall. intros c Hc.
    apply in_alphabet_plain, Hall, Hc. }
  unfold atob. rewrite Ht.
  destruct Hshape as [[-> Hlen] | [Hk Hlen]].
  - cbn [repeat]. rewrite app_nil_r.
    pose proof (strip_padding_body body 0 Hbody (Nat.le_0_l 2)) as Hstrip.
    cbn [repeat] in Hstrip. rewrite app_nil_r in Hstrip.
    destruct (N.of_nat (length body) mod 4 =? 0); rewrite ?Hstrip;
      (destruct (N.eqb_spec (N.of_nat (length body) mod 4) 1);
       [contradiction | rewrite Hsx; reflexivity]).
  - assert (Hk2 : (k <= 2)%nat) by lia.
    rewrite length_app, repeat_length, Hlen. cbn [N.eqb].
    rewrite (strip_padding_body body k Hbody Hk2).
    destruct (N.eqb_spec (N.of_nat (length body) mod 4) 1) as [E | _].
    + exfalso. rewrite Nat2N.inj_add in Hlen. destruct Hk as [-> | ->]; lia.
    + rewrite Hsx. reflexivity.
Qed.

(** X6. The payloads the decoder accepts: when, whitespace aside, the text
    is a run of alphabet symbols followed by no padding (and the run is not
    one symbol longer than a multiple of four) or by one or two padding
    characters that complete a multiple of four, decoding succeeds with the
    bytes of the symbols' bit string. *)
Theorem payload_accepted (t body : jsstring) (sx : list N) (k : nat) :
  strip_whitespace t = body ++ repeat pad_char k ->
  sextets_of body = Some sx ->
  (k = 0%nat /\ N.of_nat (length body) mod 4 <> 1)
  \/ ((k = 1%nat \/ k = 2%nat) /\ N.of_nat (length body + k) mod 4 = 0) ->
  base64ToUint8 t = Ok (map ToUint8 (decode_sextets sx)).
Proof.
  intros Ht Hsx Hshape. unfold base64ToUint8.
  rewrite (atob_accepts t body sx k Ht Hsx Hshape). cbn [result_bind].
  rewrite fill_loop_spec. reflexivity.
Qed.

Lemma map_ToUint8_fromCharCode (u8 : Uint8Array) :
  map ToUint8 (fromCharCode_apply u8) = u8.
Proof.
  unfold fromCharCode_apply. rewrite map_map. rewrite <- (map_id u8) at 2.
  apply map_ext. intros b. apply ToUint8_to_N.
Qed.

(** X7. A payload survives reformatting: the text [uint8ToBase64] produced
    for [b] still decodes to [b] after ASCII whitespace has been inserted
    anywhere in it (line breaks, a trailing newline), and also after its
    trailing padding has been dropped. *)
Theorem payload_reformatted (b : Uint8Array) (p t : jsstring) :
  uint8ToBase64 b = Ok p ->
  strip_whitespace t = p \/ strip_whitespace t = strip_padding p ->
  base64ToUint8 t = Ok b.
Proof.
  intros Hp Ht. rewrite uint8ToBase64_ok in Hp. injection Hp as <-.
  set (data := fromCharCode_apply b) in *.
  assert (Hsx : sextets_of (map sextet_char (encode_sextets data))
                = Some (encode_sextets data))
    by (apply sextets_of_map, encode_sextets_bound, fromCharCode_octets).
  assert (Hdec : map ToUint8 (decode_sextets (encode_sextets data)) = b).
  { rewrite decode_encode_sextets by apply fromCharCode_octets.
    apply map_ToUint8_fromCharCode. }
  pose proof (base64_encode_length data) as Hlen.
  rewrite base64_encode_parts, length_app, length_map in Hlen.
  pose proof (encode_sextets_length data) as Hno.
  assert (Hatob : atob t = Ok (decode_sextets (encode_sextets data))).
  { destruct Ht as [Ht | Ht].
    - apply (atob_accepts t (map sextet_char (encode_sextets data))
               (encode_sextets data) (length (encode_padding data))).
      + rewrite Ht, base64_encode_parts. f_equal.
        destruct (encode_padding_cases data) as [-> | [-> | ->]]; reflexivity.
      + exact Hsx.
      + rewrite length_map.
        destruct (encode_padding_cases data) as [E | [E | E]]; rewrite E in *;
          cbn [length] in *.
        * left. auto.
        * right. split; [left; reflexivity | exact Hlen].
        * right. split; [right; reflexivity | exact Hlen].
    - apply (atob_accepts t (map sextet_char (encode_sextets data))
               (encode_sextets data) 0).
      + rewrite Ht, strip_padding_encode. cbn [repeat]. rewrite app_nil_r.
        reflexivity.
      + exact Hsx.
      + left. rewrite length_map. auto. }
  unfold base64ToUint8. rewrite Hatob. cbn [result_bind].
  rewrite fill_loop_spec, Hdec. reflexivity.
Qed.

Lemma list_ind4 {A} (P : list A -> Prop) :
  P [] -> (forall a, P [a]) -> (forall a b, P [a; b]) ->
  (forall a b c, P [a; b; c]) ->
  (forall a b c d l, P l -> P (a :: b :: c :: d :: l)) ->
  forall l, P l.
Proof.
  intros H0 H1 H2 H3 H4 l.
  enough (H : P l /\ (forall a, P (a :: l)) /\ (forall a b, P (a :: b :: l))
              /\ (forall a b c, P (a :: b :: c :: l)))
    by apply H.
  induction l as [| x l (IH0 & IH1 & IH2 & IH3)].
  - auto.
  - repeat split; auto.
Qed.

Lemma decode_sextets_size (sx : list N) :
  length (decode_sextets sx) = (3 * length sx / 4)%nat.
Proof.
  induction sx as [| a | a b | a b c | a b c d rest IH] using list_ind4;
    try reflexivity.
  cbn [decode_sextets length]. rewrite IH.
  replace (3 * S (S (S (S (length rest)))))%nat
    with (3 * length rest + 3 * 4)%nat by lia.
  rewrite Nat.div_add by discriminate. lia.
Qed.

Lemma filter_alphabet_whole (d : jsstring) :
  forallb in_alphabet d = true -> filter in_alphabet d = d.
Proof. apply filter_forallb. Qed.

Lemma filter_alphabet_strip_whitespace (t : jsstring) :
  filter in_alphabet (strip_whitespace t) = filter in_alphabet t.
Proof.
  unfold strip_whitespace. induction t as [| c t IH]; [reflexivity |].
  cbn [filter]. destruct (is_ascii_whitespace c) eqn:Ews; cbn [negb].
  - destruct (in_alphabet c) eqn:Ea; [| exact IH].
    apply in_alphabet_plain in Ea. destruct Ea as [Ea _]. congruence.
  - cbn [filter]. rewrite IH. reflexivity.
Qed.

Lemma atob_alphabet_count (t binary : jsstring) :
  atob t = Ok binary ->
  length binary = (3 * length (filter in_alphabet t) / 4)%nat.
Proof.
  unfold atob. set (d := strip_whitespace t).
  set (d' := if N.of_nat (length d) mod 4 =? 0 then strip_padding d else d).
  intros H. destruct (N.of_nat (length d') mod 4 =? 1); [discriminate |].
  destruct (sextets_of d') as [sx |] eqn:Hsx; [| discriminate].
  injection H as <-.
  destruct (sextets_of_alphabet d' sx Hsx) as [Hall Hlen].
  rewrite decode_sextets_size, Hlen. do 2 f_equal.
  rewrite <- filter_alphabet_strip_whitespace. fold d.
  assert (Hsplit : exists pads, d = d' ++ pads /\ filter in_alphabet pads = []).
  { subst d'. destruct (N.of_nat (length d) mod 4 =? 0).
    - destruct (strip_padding_cases d) as (pads & Hsp & Hp).
      exists pads. split; [exact Hsp |].
      destruct Hp as [-> | [-> | ->]]; reflexivity.
    - exists []. rewrite app_nil_r. split; reflexivity. }
  destruct Hsplit as (pads & Hsplit & Hnone). clearbody d' d.
  rewrite Hsplit, filter_app, Hnone, app_nil_r.
  rewrite filter_alphabet_whole by exact Hall. reflexivity.
Qed.

(** X8. The size of a decoded payload: when decoding succeeds, the number
    of bytes is three quarters, rounded down, of the number of alphabet
    symbols in the text; whitespace and padding do not count. *)
Theorem base64ToUint8_length (t : jsstring) (u8 : Uint8Array) :
  base64ToUint8 t = Ok u8 ->
  length u8 = (3 * length (filter in_alphabet t) / 4)%nat.
Proof.
  unfold base64ToUint8. destruct (atob t) as [binary |] eqn:E;
    cbn [result_bind]; [| discriminate].
  intros H. injection H as <-.
  rewrite fill_loop_spec, length_map. apply atob_alphabet_count. exact E.
Qed.

(** ** The two runs, whatever their outcome *)

Section Outcomes.
Context {CS : CompressionStreams}.

(** X10. A restore run never touches the compress direction's slots nor the
    stored file name. When the reader loads the text, the run ends with the
    in-flight flag cleared, and either the restored bytes stored and no
    error, or the restored slot kept and the error set to the thrown
    value's string followed by the fixed text. When the reader does not
    load, the run is never finished: no error is stored and the in-flight
    flag stays set. *)
Theorem restore_run_outcome (file : File) (s : State) :
  let s' := exec (handleTxtUpload (Some file)) s in
  compressedText s' = compressedText s /\ fileName s' = fileName s
  /\ isCompressing s' = isCompressing s
  /\ match text file with
     | None =>
         isDecompressing s' = true /\ error s' = None
         /\ restoredBlob s' = restoredBlob s
     | Some t =>
         isDecompressing s' = false
         /\ match restore_stages t with
            | Ok out => restoredBlob s' = Some out /\ error s' = None
            | Throw e =>
                restoredBlob s' = restoredBlob s
                /\ error s'
                   = Some (Error_toString e
                           ++ lit "Error decompressing file. Maybe wrong TXT format?")
            end
     end.
Proof.
  cbv zeta. destruct (text file) as [t |] eqn:Ht.
  - destruct (restore_stages t) as [out | e] eqn:Hr.
    + rewrite (handleTxtUpload_done file t out s Ht Hr). repeat split.
    + rewrite (handleTxtUpload_failed file t e s Ht Hr). repeat split.
  - rewrite (handleTxtUpload_unread file s Ht). repeat split.
Qed.

Lemma handleFileUpload_frame (files0 : option File) (s : State) :
  restoredBlob (exec (handleFileUpload files0) s) = restoredBlob s
  /\ isDecompressing (exec (handleFileUpload files0) s) = isDecompressing s
  /\ isCompressing (exec (handleFileUpload files0) s)
     = match files0 with Some _ => false | None => isCompressing s end.
Proof.
  destruct files0 as [file |]; [| repeat split].
  destruct (stream file) as [bytes | e] eqn:E.
  - rewrite (handleFileUpload_done file bytes s E). repeat split.
  - rewrite (handleFileUpload_failed file e s E). repeat split.
Qed.

Lemma handleTxtUpload_frame (files0 : option File) (s : State) :
  compressedText (exec (handleTxtUpload files0) s) = compressedText s
  /\ fileName (exec (handleTxtUpload files0) s) = fileName s
  /\ isCompressing (exec (handleTxtUpload files0) s) = isCompressing s.
Proof.
  destruct files0 as [file |]; [| repeat split].
  destruct (text file) as [t |] eqn:Ht.
  - destruct (restore_stages t) as [out | e] eqn:Hr.
    + rewrite (handleTxtUpload_done file t out s Ht Hr). repeat split.
    + rewrite (handleTxtUpload_failed file t e s Ht Hr). repeat split.
  - rewrite (handleTxtUpload_unread file s Ht). repeat split.
Qed.

(** X11. The two directions are independent of each other except for the
    shared error: a compress run followed by a restore run and the same two
    runs in the other order end with the same text, file name, restored
    bytes and in-flight flags. *)
Theorem directions_commute (original payload : option File) (s : State) :
  let a := exec (handleTxtUpload payload) (exec (handleFileUpload original) s) in
  let b := exec (handleFileUpload original) (exec (handleTxtUpload payload) s) in
  compressedText a = compressedText b /\ fileName a = fileName b
  /\ restoredBlob a = restoredBlob b
  /\ isCompressing a = isCompressing b
  /\ isDecompressing a = isDecompressing b.
Proof.
  cbv zeta.
  destruct original as [file |]; [| repeat split].
  destruct payload as [upload |]; [| repeat split].
  destruct (stream file) as [bytes | e] eqn:E;
    destruct (text upload) as [t |] eqn:Ht;
    try (destruct (restore_stages t) as [out | e'] eqn:Hr);
    repeat first
      [ rewrite (handleFileUpload_done file bytes _ E)
      | rewrite (handleFileUpload_failed file e _ E)
      | rewrite (handleTxtUpload_done upload t out _ Ht Hr)
      | rewrite (handleTxtUpload_failed upload t e' _ Ht Hr)
      | rewrite (handleTxtUpload_unread upload _ Ht) ];
    repeat split.
Qed.

(** X12. Within one session the original name comes back: when a readable
    file whose name is not empty and does not contain [.compressed.txt] is
    compressed, and the text offered by [downloadTxt] is then uploaded for
    restoring, [downloadRestored] offers the file's bytes under the file's
    own name (given a decompressor that inverts the compressor). *)
Theorem session_round_trip (file upload : File) (b : Uint8Array)
  (payload : jsstring) (s : State) :
  (forall x, gunzip (gzip x) = Ok x) ->
  stream file = Ok b ->
  href (downloadTxt (exec (handleFileUpload (Some file)) s)) = TextBody payload ->
  text upload = Some payload ->
  name file <> [] -> includes (name file) (lit ".compressed.txt") = false ->
  downloadRestored
    (exec (handleTxtUpload (Some upload)) (exec (handleFileUpload (Some file)) s))
  = Some (mkAnchor (BlobBody b) (name file)).
Proof.
  intros Hgz Hfile Hpay Hup Hname Habsent.
  rewrite (handleFileUpload_done file b s Hfile) in *.
  cbn [downloadTxt href compressedText] in Hpay. injection Hpay as <-.
  assert (Hstages : restore_stages (base64_encode (fromCharCode_apply (gzip b)))
                    = Ok b).
  { unfold restore_stages. rewrite base64ToUint8_encode. cbn [result_bind].
    apply Hgz. }
  rewrite (handleTxtUpload_done upload _ b _ Hup Hstages).
  unfold downloadRestored. cbn [restoredBlob fileName].
  rewrite String_replace_absent by exact Habsent.
  destruct (name file); [congruence | reflexivity].
Qed.

(** X13. After a compress run that fails, the text of the run before it is
    still offered by [downloadTxt], but under the name of the file that
    failed; the download button is enabled exactly when that older text is
    not empty. *)
Theorem failed_run_renames_download (file : File) (e : Error) (s : State) :
  stream file = Throw e ->
  downloadTxt (exec (handleFileUpload (Some file)) s)
  = mkAnchor (TextBody (compressedText s)) (name file ++ lit ".compressed.txt")
  /\ downloadTxt_disabled (render (exec (handleFileUpload (Some file)) s))
     = negb (truthy (compressedText s)).
Proof.
  intros H. rewrite (handleFileUpload_failed file e s H). split.
  - reflexivity.
  - unfold render. cbn [downloadTxt_disabled compressedText isCompressing].
    apply orb_false_r.
Qed.

End Outcomes.

(** ** Sessions of events *)

Section Sessions.
Context {CS : CompressionStreams}.

Lemma session_cons (ev : Event) (rest : list Event) (s : State) :
  session (ev :: rest) s
  = (fst (session rest (fst (dispatch ev s))),
     match snd (dispatch ev s) with
     | Some a => a :: snd (session rest (fst (dispatch ev s)))
     | None => snd (session rest (fst (dispatch ev s)))
     end).
Proof.
  cbn [session]. destruct (dispatch ev s) as [s1 d]. cbn [fst snd].
  destruct (session rest s1) as [s2 ds]. reflexivity.
Qed.

Lemma session_download (ev : Event) (rest : list Event) (s : State) (a : Anchor) :
  In a (snd (session (ev :: rest) s)) ->
  snd (dispatch ev s) = Some a
  \/ In a (snd (session rest (fst (dispatch ev s)))).
Proof.
  rewrite session_cons. cbn [snd].
  destruct (snd (dispatch ev s)) as [a' |]; [| auto].
  intros [-> | H]; auto.
Qed.

Lemma dispatch_stuck (ev : Event) (s : State) :
  isDecompressing s = true ->
  isDecompressing (fst (dispatch ev s)) = true
  /\ restoredBlob (fst (dispatch ev s)) = restoredBlob s
  /\ forall a, snd (dispatch ev s) = Some a -> exists t, href a = TextBody t.
Proof.
  intros H. destruct ev as [| files0 | | files0 |]; unfold dispatch, render;
    cbn [error_message originalFile_disabled downloadTxt_disabled
         txtFile_disabled downloadRestored_disabled].
  - destruct (error s) as [msg |]; [destruct (truthy msg) |];
      cbn [fst snd]; repeat split; try assumption; discriminate.
  - destruct (isCompressing s); cbn [fst snd].
    + repeat split; try assumption; discriminate.
    + destruct (handleFileUpload_frame files0 s) as (Hb & Hd & _).
      rewrite Hb, Hd. repeat split; try assumption; discriminate.
  - destruct (negb (truthy (compressedText s)) || isCompressing s);
      cbn [fst snd]; repeat split; try assumption; try discriminate.
    intros a Ha. injection Ha as <-. eexists. reflexivity.
  - rewrite H. cbn [fst snd]. repeat split; try assumption; discriminate.
  - rewrite H, orb_true_r. cbn [fst snd].
    repeat split; try assumption; discriminate.
Qed.

(** X14. A restore run whose reader never loads blocks the restore
    direction for the rest of the session: once the in-flight flag of the
    restore direction is set at rest, no sequence of events clears it, the
    restored bytes never change, and every download the session starts is a
    text download. *)
Theorem restore_stays_stuck (events : list Event) (s : State) :
  isDecompressing s = true ->
  isDecompressing (fst (session events s)) = true
  /\ restoredBlob (fst (session events s)) = restoredBlob s
  /\ forall a, In a (snd (session events s)) -> exists t, href a = TextBody t.
Proof.
  revert s. induction events as [| ev rest IH]; intros s H.
  - cbn [session fst snd]. repeat split; [assumption | contradiction].
  - destruct (dispatch_stuck ev s H) as (Hflag & Hblob & Hdown).
    destruct (IH _ Hflag) as (IHflag & IHblob & IHdown).
    repeat split.
    + rewrite session_cons. exact IHflag.
    + rewrite session_cons. cbn [fst]. rewrite IHblob. exact Hblob.
    + intros a Ha. apply session_download in Ha. destruct Ha as [Ha | Ha].
      * exact (Hdown a Ha).
      * exact (IHdown a Ha).
Qed.

Lemma text_downloads_from (P : jsstring -> Prop) (events : list Event) :
  forall s,
    compressedText s = [] \/ P (compressedText s) ->
    (forall file bytes,
        In (SelectOriginal (Some file)) events -> stream file = Ok bytes ->
        P (base64_encode (fromCharCode_apply (gzip bytes)))) ->
    forall a t, In a (snd (session events s)) -> href a = TextBody t -> P t.
Proof.
  induction events as [| ev rest IH]; intros s Hinv Hsel a t Ha Ht.
  - contradiction.
  - apply session_download in Ha. destruct Ha as [Ha | Ha].
    + destruct ev as [| files0 | | files0 |]; unfold dispatch, render in Ha;
        cbn [error_message originalFile_disabled downloadTxt_disabled
             txtFile_disabled downloadRestored_disabled] in Ha.
      * destruct (error s) as [msg |]; [destruct (truthy msg) |]; discriminate.
      * destruct (isCompressing s); discriminate.
      * destruct (compressedText s) as [| c text] eqn:E;
          cbn [truthy negb orb] in Ha; [discriminate |].
        destruct (isCompressing s); [discriminate |].
        cbn [snd] in Ha. injection Ha as <-.
        cbn [downloadTxt href] in Ht. injection Ht as <-. rewrite E.
        destruct Hinv as [Hinv | Hinv]; [discriminate | exact Hinv].
      * destruct (isDecompressing s); discriminate.
      * destruct (_ || _); [discriminate |]. cbn [snd] in Ha.
        unfold downloadRestored in Ha.
        destruct (restoredBlob s); [| discriminate].
        injection Ha as <-. discriminate.
    + refine (IH (fst (dispatch ev s)) _ _ a t Ha Ht).
      * destruct ev as [| files0 | | files0 |]; unfold dispatch, render;
          cbn [error_message originalFile_disabled downloadTxt_disabled
               txtFile_disabled downloadRestored_disabled].
        -- destruct (error s) as [msg |]; [destruct (truthy msg) |];
             exact Hinv.
        -- destruct (isCompressing s); [exact Hinv |]. cbn [fst].
           destruct files0 as [file |]; [| exact Hinv].
           destruct (stream file) as [bytes | e] eqn:E.
           ++ rewrite (handleFileUpload_done file bytes s E).
              right. apply (Hsel file bytes); [left; reflexivity | exact E].
           ++ rewrite (handleFileUpload_failed file e s E). exact Hinv.
        -- destruct (_ || _); exact Hinv.
        -- destruct (isDecompressing s); [exact Hinv |]. cbn [fst].
           destruct (handleTxtUpload_frame files0 s) as (-> & _). exact Hinv.
        -- destruct (_ || _); exact Hinv.
      * intros file bytes Hin. apply Hsel. right. exact Hin.
Qed.

(** X15. Every text download of a session that starts from the fresh
    component carries the encoding of the compressed bytes of a file that
    was selected for compression in that session and could be read: never
    an empty, partial or foreign text. *)
Theorem text_download_provenance (events : list Event) (a : Anchor)
  (t : jsstring) :
  In a (snd (session events initial)) -> href a = TextBody t ->
  exists file bytes,
    In (SelectOriginal (Some file)) events /\ stream file = Ok bytes
    /\ uint8ToBase64 (gzip bytes) = Ok t.
Proof.
  apply (text_downloads_from
           (fun t => exists file bytes,
                In (SelectOriginal (Some file)) events /\ stream file = Ok bytes
                /\ uint8ToBase64 (gzip bytes) = Ok t)).
  - left. reflexivity.
  - intros file bytes Hin Hs. exists file, bytes.
    rewrite uint8ToBase64_ok. auto.
Qed.

Lemma blob_downloads_from (P : Uint8Array -> Prop) (events : list Event) :
  forall s,
    match restoredBlob s with None => True | Some blob => P blob end ->
    (forall file t out,
        In (SelectTxt (Some file)) events -> text file = Some t ->
        restore_stages t = Ok out -> P out) ->
    forall a b, In a (snd (session events s)) -> href a = BlobBody b -> P b.
Proof.
  induction events as [| ev rest IH]; intros s Hinv Hsel a b Ha Hb.
  - contradiction.
  - apply session_download in Ha. destruct Ha as [Ha | Ha].
    + destruct ev as [| files0 | | files0 |]; unfold dispatch, render in Ha;
        cbn [error_message originalFile_disabled downloadTxt_disabled
             txtFile_disabled downloadRestored_disabled] in Ha.
      * destruct (error s) as [msg |]; [destruct (truthy msg) |]; discriminate.
      * destruct (isCompressing s); discriminate.
      * destruct (_ || _); [discriminate |]. cbn [snd] in Ha.
        injection Ha as <-. discriminate.
      * destruct (isDecompressing s); discriminate.
      * destruct (_ || _); [discriminate |]. cbn [snd] in Ha.
        unfold downloadRestored in Ha.
        destruct (restoredBlob s) as [blob |]; [| discriminate].
        injection Ha as <-. cbn [href] in Hb. injection Hb as <-. exact Hinv.
    + refine (IH (fst (dispatch ev s)) _ _ a b Ha Hb).
      * destruct ev as [| files0 | | files0 |]; unfold dispatch, render;
          cbn [error_message originalFile_disabled downloadTxt_disabled
               txtFile_disabled downloadRestored_disabled].
        -- destruct (error s) as [msg |]; [destruct (truthy msg) |];
             exact Hinv.
        -- destruct (isCompressing s); [exact Hinv |]. cbn [fst].
           destruct (handleFileUpload_frame files0 s) as (-> & _). exact Hinv.
        -- destruct (_ || _); exact Hinv.
        -- destruct (isDecompressing s); [exact Hinv |]. cbn [fst].
           destruct files0 as [file |]; [| exact Hinv].
           destruct (text file) as [t |] eqn:Et.
           ++ destruct (restore_stages t) as [out | e] eqn:Er.
              ** rewrite (handleTxtUpload_done file t out s Et Er).
                 cbn [restoredBlob].
                 apply (Hsel file t out); [left; reflexivity | exact Et | exact Er].
              ** rewrite (handleTxtUpload_failed file t e s Et Er). exact Hinv.
           ++ rewrite (handleTxtUpload_unread file s Et). exact Hinv.
        -- destruct (_ || _); exact Hinv.
      * intros file t out Hin. apply Hsel. right. exact Hin.
Qed.

(** X16. Every restored download of a session that starts from the fresh
    component carries the bytes that decoding and decompressing the text of
    an uploaded payload file of that session gave, in full. *)
Theorem blob_download_provenance (events : list Event) (a : Anchor)
  (b : Uint8Array) :
  In a (snd (session events initial)) -> href a = BlobBody b ->
  exists file t,
    In (SelectTxt (Some file)) events /\ text file = Some t
    /\ restore_stages t = Ok b.
Proof.
  apply (blob_downloads_from
           (fun b => exists file t,
                In (SelectTxt (Some file)) events /\ text file = Some t
                /\ restore_stages t = Ok b)).
  - exact I.
  - intros file t out Hin Ht Hr. exists file, t. auto.
Qed.

Lemma dispatch_error (ev : Event) (s : State) :
  error s <> Some [] -> error (fst (dispatch ev s)) <> Some [].
Proof.
  intros H. destruct ev as [| files0 | | files0 |]; unfold dispatch, render;
    cbn [error_message originalFile_disabled downloadTxt_disabled
         txtFile_disabled downloadRestored_disabled].
  - destruct (error s) as [msg |] eqn:E; [destruct (truthy msg) |]; cbn [fst];
      [discriminate | rewrite E; exact H | rewrite E; exact H].
  - destruct (isCompressing s); [exact H |]. cbn [fst].
    destruct files0 as [file |]; [| exact H].
    destruct (stream file) as [bytes | e] eqn:E.
    + rewrite (handleFileUpload_done file bytes s E). discriminate.
    + rewrite (handleFileUpload_failed file e s E). cbn [error].
      change (lit "Failed to compress file: ")
        with (70 :: lit "ailed to compress file: ").
      discriminate.
  - destruct (_ || _); exact H.
  - destruct (isDecompressing s); [exact H |]. cbn [fst].
    destruct files0 as [file |]; [| exact H].
    destruct (text file) as [t |] eqn:Et.
    + destruct (restore_stages t) as [out | e] eqn:Er.
      * rewrite (handleTxtUpload_done file t out s Et Er). discriminate.
      * rewrite (handleTxtUpload_failed file t e s Et Er). cbn [error].
        intros Hnil. injection Hnil as Hnil.
        apply app_eq_nil in Hnil. destruct Hnil as [_ Hnil]. discriminate.
    + rewrite (handleTxtUpload_unread file s Et). discriminate.
  - destruct (_ || _); exact H.
Qed.

(** X17. In every state a session reaches from the fresh component the
    stored error is null or a non-empty message, so the error banner is
    rendered exactly when an error is stored, with that message. *)
Theorem banner_shows_error (events : list Event) :
  error_message (render (fst (session events initial)))
  = error (fst (session events initial)).
Proof.
  assert (H : forall s, error s <> Some [] ->
                        error (fst (session events s)) <> Some []).
  { induction events as [| ev rest IH]; intros s Hs; [exact Hs |].
    rewrite session_cons. cbn [fst]. apply IH, dispatch_error, Hs. }
  specialize (H initial). unfold render. cbn [error_message].
  destruct (error (fst (session events initial))) as [[| c msg] |];
    [exfalso; apply H; [discriminate | reflexivity] | reflexivity | reflexivity].
Qed.

End Sessions.

(** ** The further properties on concrete inputs *)

Lemma uint8ToBase64_injective_witness :
  uint8ToBase64 [x00] <> uint8ToBase64 [x01].
Proof.
  apply (uint8ToBase64_injective [x00] [x01]). discriminate.
Defined.

Lemma uint8ToBase64_app_witness :
  exists p1 p2,
    uint8ToBase64 (bytes_of "foo") = Ok p1 /\ uint8ToBase64 (bytes_of "ba") = Ok p2
    /\ uint8ToBase64 (bytes_of "foo" ++ bytes_of "ba") = Ok (p1 ++ p2).
Proof.
  apply (uint8ToBase64_app (bytes_of "foo") (bytes_of "ba")). reflexivity.
Defined.

Lemma chunk_bounded_witness :
  N.of_nat (length (subarray (bytes_of "Hello") 3 (3 + Npos chunkSize))) = 2.
Proof.
  rewrite (proj1 (chunk_bounded (bytes_of "Hello") 3 eq_refl)). reflexivity.
Defined.

Lemma payload_accepted_witness :
  base64ToUint8 (lit "SGVs bG8") = Ok (bytes_of "Hello").
Proof.
  apply (payload_accepted (lit "SGVs bG8") (lit "SGVsbG8")
           [18; 6; 21; 44; 27; 6; 60] 0).
  - reflexivity.
  - reflexivity.
  - left. split; [reflexivity | discriminate].
Defined.

Lemma payload_reformatted_witness :
  base64ToUint8 (lit " SGVs bG8= ") = Ok (bytes_of "Hello")
  /\ base64ToUint8 (lit "SGVs bG8") = Ok (bytes_of "Hello").
Proof.
  split.
  - apply (payload_reformatted (bytes_of "Hello") (lit "SGVsbG8=")
             (lit " SGVs bG8= ")); [reflexivity | left; reflexivity].
  - apply (payload_reformatted (bytes_of "Hello") (lit "SGVsbG8=")
             (lit "SGVs bG8")); [reflexivity | right; reflexivity].
Defined.

Lemma base64ToUint8_length_witness :
  length (bytes_of "Hello") = (3 * length (filter in_alphabet (lit "SGVs bG8=")) / 4)%nat.
Proof.
  apply (base64ToUint8_length (lit "SGVs bG8=") (bytes_of "Hello")).
  reflexivity.
Defined.

Lemma session_round_trip_witness :
  let file := mkFile (lit "hello.txt") (Ok hello_world) None in
  let upload := mkFile (lit "hello.txt.compressed.txt") (Ok [])
                  (Some (lit "H4tIZWxsbywgV29ybGQh")) in
  downloadRestored
    (exec (handleTxtUpload (CS := framing_codec) (Some upload))
       (exec (handleFileUpload (CS := framing_codec) (Some file)) initial))
  = Some (mkAnchor (BlobBody hello_world) (lit "hello.txt")).
Proof.
  intros file upload.
  apply (session_round_trip (CS := framing_codec) file upload hello_world
           (lit "H4tIZWxsbywgV29ybGQh") initial).
  - intros x. reflexivity.
  - reflexivity.
  - reflexivity.
  - reflexivity.
  - discriminate.
  - reflexivity.
Defined.

Lemma failed_run_renames_download_witness :
  let s := mkState (lit "H4s=") (lit "old.bin") None None false false in
  let unreadable := mkFile (lit "gone.bin") (Throw NotReadableError) None in
  downloadTxt (exec (handleFileUpload (CS := framing_codec) (Some unreadable)) s)
  = mkAnchor (TextBody (lit "H4s=")) (lit "gone.bin.compressed.txt").
Proof.
  intros s unreadable.
  apply (proj1 (failed_run_renames_download (CS := framing_codec) unreadable
                  NotReadableError s eq_refl)).
Defined.

Lemma restore_stays_stuck_witness :
  let unreadable := mkFile (lit "gone.txt") (Throw NotReadableError) None in
  let payload := mkFile (lit "hello.txt.compressed.txt") (Ok [])
                   (Some (lit "H4tIZWxsbywgV29ybGQh")) in
  let stuck := exec (handleTxtUpload (CS := framing_codec) (Some unreadable))
                 initial in
  isDecompressing
    (fst (session (CS := framing_codec)
            [Dismiss; SelectTxt (Some payload); ClickDownloadRestored] stuck))
  = true.
Proof.
  intros unreadable payload stuck.
  apply (proj1 (restore_stays_stuck (CS := framing_codec)
                  [Dismiss; SelectTxt (Some payload); ClickDownloadRestored]
                  stuck eq_refl)).
Defined.

Lemma text_download_provenance_witness :
  let file := mkFile (lit "hello.txt") (Ok hello_world) None in
  exists f bytes,
    In (SelectOriginal (Some f)) [SelectOriginal (Some file); ClickDownloadTxt]
    /\ stream f = Ok bytes
    /\ uint8ToBase64 (gzip (CompressionStreams := framing_codec) bytes)
       = Ok (lit "H4tIZWxsbywgV29ybGQh").
Proof.
  intros file.
  apply (text_download_provenance (CS := framing_codec)
           [SelectOriginal (Some file); ClickDownloadTxt]
           (mkAnchor (TextBody (lit "H4tIZWxsbywgV29ybGQh"))
              (lit "hello.txt.compressed.txt"))
           (lit "H4tIZWxsbywgV29ybGQh")).
  - left. reflexivity.
  - reflexivity.
Defined.

Lemma blob_download_provenance_witness :
  let payload := mkFile (lit "hello.txt.compressed.txt") (Ok [])
                   (Some (lit "H4tIZWxsbywgV29ybGQh")) in
  exists f t,
    In (SelectTxt (Some f)) [SelectTxt (Some payload); ClickDownloadRestored]
    /\ text f = Some t
    /\ restore_stages (CS := framing_codec) t = Ok hello_world.
Proof.
  intros payload.
  apply (blob_download_provenance (CS := framing_codec)
           [SelectTxt (Some payload); ClickDownloadRestored]
           (mkAnchor (BlobBody hello_world) (lit "restored_file"))
           hello_world).
  - left. reflexivity.
  - reflexivity.
Defined.

(** * The code on an engine with bounded strings *)

Section BoundedStrings.
Context {E : Engine}.

Lemma allocate_ok (s s' : jsstring) :
  allocate s = Ok s' -> s' = s /\ N.of_nat (length s) <= max_string_length.
Proof.
  unfold allocate.
  destruct (N.leb_spec (N.of_nat (length s)) max_string_length) as [Hle | Hgt].
  - intros Hok. injection Hok as <-. auto.
  - discriminate.
Qed.

Lemma allocate_throw (s : jsstring) (e : Error) :
  allocate s = Throw e ->
  e = RangeError /\ max_string_length < N.of_nat (length s).
Proof.
  unfold allocate.
  destruct (N.leb_spec (N.of_nat (length s)) max_string_length) as [Hle | Hgt].
  - discriminate.
  - intros Hthrow. injection Hthrow as <-. auto.
Qed.

Lemma allocate_fits (s : jsstring) :
  N.of_nat (length s) <= max_string_length -> allocate s = Ok s.
Proof.
  intros H. unfold allocate. apply N.leb_le in H. rewrite H. reflexivity.
Qed.

Lemma allocate_long (s : jsstring) :
  max_string_length < N.of_nat (length s) -> allocate s = Throw RangeError.
Proof.
  intros H. unfold allocate. apply N.leb_gt in H. rewrite H. reflexivity.
Qed.

Lemma chunk_loop_within_spec (cs : positive) (u8 : Uint8Array) (i : N)
  (binary : jsstring) :
  chunk_loop_within cs u8 i binary
  = if i <? N.of_nat (length u8)
    then allocate (binary ++ fromCharCode_apply (skipn (N.to_nat i) u8))
    else Ok binary.
Proof.
  funelim (chunk_loop_within cs u8 i binary).
  - rewrite e. reflexivity.
  - clear Heqcall.
    match goal with IH : chunk_loop_within _ _ _ _ = _ |- _ => rewrite IH end.
    rewrite Hlt. pose proof Heq as Hsame.
    apply allocate_ok in Hsame. destruct Hsame as [-> _].
    destruct (i + N.pos cs <? N.of_nat (length u8)) eqn:Hnext.
    + rewrite <- app_assoc. unfold fromCharCode_apply.
      rewrite <- map_app, subarray_chunk. reflexivity.
    + apply N.ltb_ge in Hnext. rewrite <- Heq.
      rewrite <- (subarray_chunk u8 i cs).
      rewrite (skipn_all2 u8 (n := N.to_nat (i + N.pos cs))) by lia.
      rewrite app_nil_r. reflexivity.
  - rewrite Hlt. apply allocate_throw in Heq. destruct Heq as [-> Hlong].
    symmetry. apply allocate_long.
    rewrite <- (subarray_chunk u8 i cs). unfold fromCharCode_apply in *.
    rewrite !length_app, !length_map in *. rewrite length_app. lia.
Qed.

Lemma uint8ToBase64_within_spec (u8 : Uint8Array) :
  uint8ToBase64_within u8 = allocate (base64_encode (fromCharCode_apply u8)).
Proof.
  unfold uint8ToBase64_within. rewrite chunk_loop_within_spec.
  cbn [N.to_nat skipn app].
  destruct (0 <? N.of_nat (length u8)) eqn:Hpos.
  - destruct (allocate (fromCharCode_apply u8)) as [binary | e] eqn:Hbin.
    + apply allocate_ok in Hbin. destruct Hbin as [-> _].
      cbn [result_bind]. rewrite btoa_fromCharCode. reflexivity.
    + apply allocate_throw in Hbin. destruct Hbin as [-> Hlong].
      cbn [result_bind]. symmetry. apply allocate_long.
      rewrite base64_encode_size.
      assert (length (fromCharCode_apply u8)
              <= 4 * ((length (fromCharCode_apply u8) + 2) / 3))%nat.
      { pose proof (Nat.div_mod_eq (length (fromCharCode_apply u8) + 2) 3).
        pose proof (Nat.mod_upper_bound (length (fromCharCode_apply u8) + 2) 3).
        lia. }
      lia.
  - apply N.ltb_ge in Hpos. destruct u8 as [| b u8]; [| cbn [length] in Hpos; lia].
    reflexivity.
Qed.

End BoundedStrings.

(** ** Counting byte sequences *)

Lemma NoDup_map_injective {A B} (f : A -> B) (l : list A) :
  (forall x y, f x = f y -> x = y) -> NoDup l -> NoDup (map f l).
Proof.
  intros Hinj. induction 1 as [| x l Hx _ IH]; cbn [map]; constructor.
  - intros Hin. apply in_map_iff in Hin. destruct Hin as (y & Hy & Hin).
    apply Hinj in Hy. subst y. contradiction.
  - exact IH.
Qed.

Lemma all_bytes_complete (b : byte) : In b all_bytes.
Proof.
  unfold all_bytes. rewrite <- (ToUint8_to_N b). apply in_map, in_map_iff.
  exists (N.to_nat (Byte.to_N b)). split; [apply N2Nat.id |].
  apply in_seq. pose proof (Byte.to_N_bounded b). lia.
Qed.

Lemma all_bytes_NoDup : NoDup all_bytes.
Proof.
  apply (NoDup_map_inv Byte.to_N).
  replace (map Byte.to_N all_bytes) with (map N.of_nat (seq 0 256))
    by (vm_compute; reflexivity).
  apply NoDup_map_injective; [apply Nat2N.inj | apply seq_NoDup].
Qed.

Lemma all_bytes_length : length all_bytes = 256%nat.
Proof.
  unfold all_bytes. rewrite !length_map. apply length_seq.
Qed.

Lemma prefixed_length (bs : list byte) (ws : list Uint8Array) :
  length (flat_map (fun b => map (cons b) ws) bs) = (length bs * length ws)%nat.
Proof.
  induction bs as [| b bs IH]; [reflexivity |].
  cbn [flat_map length]. rewrite length_app, length_map, IH. reflexivity.
Qed.

Lemma prefixed_NoDup (bs : list byte) (ws : list Uint8Array) :
  NoDup bs -> NoDup ws -> NoDup (flat_map (fun b => map (cons b) ws) bs).
Proof.
  intros Hbs Hws. induction Hbs as [| b bs Hb _ IH]; [constructor |].
  cbn [flat_map]. apply NoDup_app.
  - apply NoDup_map_injective; [| exact Hws]. intros x y H. congruence.
  - exact IH.
  - intros w Hw Hw'. apply in_map_iff in Hw. destruct Hw as (x & <- & _).
    apply in_flat_map in Hw'. destruct Hw' as (b' & Hb' & Hw').
    apply in_map_iff in Hw'. destruct Hw' as (y & Hy & _).
    injection Hy as -> _. contradiction.
Qed.

Lemma words_length (n : nat) : length (words n) = (256 ^ n)%nat.
Proof.
  induction n as [| n IH]; [reflexivity |].
  cbn [words]. rewrite prefixed_length, all_bytes_length, IH.
  rewrite Nat.pow_succ_r'. reflexivity.
Qed.

Lemma words_NoDup (n : nat) : NoDup (words n).
Proof.
  induction n as [| n IH]; cbn [words].
  - constructor; [intros [] | constructor].
  - apply prefixed_NoDup; [apply all_bytes_NoDup | exact IH].
Qed.

Lemma words_complete (w : Uint8Array) : In w (words (length w)).
Proof.
  induction w as [| b w IH]; cbn [length words]; [left; reflexivity |].
  apply in_flat_map. exists b. split; [apply all_bytes_complete |].
  apply in_map. exact IH.
Qed.

Lemma words_upto_complete (n : nat) (w : Uint8Array) :
  (length w <= n)%nat -> In w (words_upto n).
Proof.
  induction n as [| n IH]; intros H.
  - destruct w as [| b w]; [left; reflexivity | cbn [length] in H; lia].
  - cbn [words_upto]. apply in_or_app.
    destruct (Nat.eq_dec (length w) (S n)) as [Heq | Hne].
    + left. rewrite <- Heq. apply words_complete.
    + right. apply IH. lia.
Qed.

Lemma words_upto_length (n : nat) : (length (words_upto n) < 256 ^ S n)%nat.
Proof.
  induction n as [| n IH].
  - cbn [words_upto]. rewrite words_length. cbn. lia.
  - cbn [words_upto]. rewrite length_app, words_length.
    rewrite (Nat.pow_succ_r' 256 (S n)). lia.
Qed.

(** An injective function on byte sequences cannot shorten every sequence
    of length [n + 1]. *)
Lemma no_short_image (f : Uint8Array -> Uint8Array) (n : nat) :
  (forall x y, f x = f y -> x = y) ->
  ~ (forall b, length b = S n -> (length (f b) <= n)%nat).
Proof.
  intros Hinj Hshort.
  assert (Hincl : incl (map f (words (S n))) (words_upto n)).
  { intros y Hy. apply in_map_iff in Hy. destruct Hy as (x & <- & Hx).
    apply words_upto_complete, Hshort.
    clear - Hx. revert x Hx. generalize (S n) as m.
    induction m as [| m IH]; cbn [words]; intros x Hx.
    - destruct Hx as [<- | []]. reflexivity.
    - apply in_flat_map in Hx. destruct Hx as (b & _ & Hx).
      apply in_map_iff in Hx. destruct Hx as (w & <- & Hw).
      cbn [length]. f_equal. apply IH, Hw. }
  assert (Hnodup : NoDup (map f (words (S n))))
    by (apply NoDup_map_injective; [exact Hinj | apply words_NoDup]).
  pose proof (NoDup_incl_length Hnodup Hincl) as Hle.
  rewrite length_map, words_length in Hle.
  pose proof (words_upto_length n). lia.
Qed.

(** ** The pipeline with bounded strings *)

Lemma encoded_length_grows (n : nat) : (n <= encoded_length n)%nat.
Proof.
  unfold encoded_length.
  pose proof (Nat.div_mod_eq (n + 2) 3).
  pose proof (Nat.mod_upper_bound (n + 2) 3). lia.
Qed.

Lemma base64_encode_encoded_length (u8 : Uint8Array) :
  length (base64_encode (fromCharCode_apply u8)) = encoded_length (length u8).
Proof.
  rewrite base64_encode_size. unfold fromCharCode_apply, encoded_length.
  rewrite length_map. reflexivity.
Qed.

Section BoundedPipeline.
Context {E : Engine} {CS : CompressionStreams}.

Lemma uint8ToBase64_within_fits (u8 : Uint8Array) :
  N.of_nat (encoded_length (length u8)) <= max_string_length ->
  uint8ToBase64_within u8 = Ok (base64_encode (fromCharCode_apply u8)).
Proof.
  intros H. rewrite uint8ToBase64_within_spec. apply allocate_fits.
  rewrite base64_encode_encoded_length. exact H.
Qed.

Lemma uint8ToBase64_within_long (u8 : Uint8Array) :
  max_string_length < N.of_nat (encoded_length (length u8)) ->
  uint8ToBase64_within u8 = Throw RangeError.
Proof.
  intros H. rewrite uint8ToBase64_within_spec. apply allocate_long.
  rewrite base64_encode_encoded_length. exact H.
Qed.

Lemma handleFileUpload_within_result (file : File) (s : State) :
  exec (handleFileUpload_within (Some file)) s
  = match result_bind (compress file) uint8ToBase64_within with
    | Ok base64 =>
        mkState base64 (name file) (restoredBlob s) None false
          (isDecompressing s)
    | Throw e =>
        mkState (compressedText s) (name file) (restoredBlob s)
          (Some (lit "Failed to compress file: " ++ err_message e)) false
          (isDecompressing s)
    end.
Proof.
  unfold handleFileUpload_within, handleFileUpload_run_within. run_handler.
  destruct (compress file) as [c | e]; cbn [result_bind]; [| reflexivity].
  destruct (uint8ToBase64_within c) as [base64 | e]; reflexivity.
Qed.

(** No gzip pair round-trips every byte sequence through the pipeline: a
    decompressor that inverts the compressor makes the compressor
    injective, so some input is not shortened below the maximal string
    length, and encoding its compressed bytes throws. *)
Lemma round_trips_not_all : ~ forall b : Uint8Array, round_trips b.
Proof.
  intros H. apply (no_short_image gzip (N.to_nat max_string_length)).
  - intros x y Hxy.
    destruct (H x) as [Hx _]. destruct (H y) as [Hy _].
    unfold compress, decompress in Hx, Hy. cbn [stream result_bind] in Hx, Hy.
    rewrite Hxy in Hx. congruence.
  - intros b _. destruct (H b) as [_ Hb].
    unfold compress in Hb. cbn [stream result_bind] in Hb.
    destruct (N.le_gt_cases (N.of_nat (encoded_length (length (gzip b))))
                max_string_length) as [Hfit | Hlong].
    + pose proof (encoded_length_grows (length (gzip b))). lia.
    + rewrite (uint8ToBase64_within_long _ Hlong) in Hb. discriminate.
Qed.




End BoundedPipeline.


(** ** The name of the restored download *)



(** X18. The restore direction never looks at the name of the uploaded
    file: in a freshly mounted component, a payload that restores is
    offered under the default name [restored_file], whatever the uploaded
    file is called. *)
Theorem fresh_restore_default_name {CS : CompressionStreams} (upload : File)
  (t : jsstring) (b : Uint8Array) :
  text upload = Some t -> restore_stages t = Ok b ->
  downloadRestored (exec (handleTxtUpload (Some upload)) initial)
  = Some (mkAnchor (BlobBody b) (lit "restored_file")).
Proof.
  intros Ht Hb. rewrite (handleTxtUpload_done upload t b initial Ht Hb).
  reflexivity.
Qed.

(** ** The amended claims and the bounded properties on concrete inputs *)



Lemma fresh_restore_default_name_witness :
  downloadRestored
    (exec (handleTxtUpload (CS := framing_codec)
             (Some (mkFile (lit "report.pdf.compressed.txt") (Ok [])
                      (Some (lit "H4tIZWxsbywgV29ybGQh")))))
       initial)
  = Some (mkAnchor (BlobBody hello_world) (lit "restored_file")).
Proof.
  apply (fresh_restore_default_name (CS := framing_codec)
           (mkFile (lit "report.pdf.compressed.txt") (Ok [])
              (Some (lit "H4tIZWxsbywgV29ybGQh")))
           (lit "H4tIZWxsbywgV29ybGQh") hello_world);
    reflexivity.
Defined.


